(** * scripts/qemucommand.py: the QEMU launch-plan builder

    A shallow embedding of [find_local_port], [random_mac] and the class
    [QemuCommand] ([__init__], [command_line], [img_command_line]).

    Python strings are byte strings ([string]); [str.lower] is modelled on
    ASCII letters.  Everything the module reaches outside itself (the file
    system, the TCP port space, the random generator, the [kvm-ok] probe)
    lives in a [World] that is threaded through every call, next to the
    module-level dictionary [EXTENSIONS], which the constructor mutates.

    Paths are strings, files are not: several paths can lead to one file
    (['foo'] and ['./foo'], a symbolic link and its target).  The world
    says which file a path leads to, and a path exists when its file
    does; a copy brings the file of its destination into existence, and
    with it every path that leads there. *)

From Stdlib Require Import ZArith String Ascii DecimalString.
From stdpp Require Import gmap strings list fin_maps.

Local Open Scope Z_scope.

(* ===================================================================== *)
(** ** Strings and paths                                                  *)
(* ===================================================================== *)

(** ['%d' % n] *)
Definition fmt_d (n : Z) : string := NilZero.string_of_int (Z.to_int n).

(** [str.lower], on the ASCII range. *)
Definition lower_ascii (c : ascii) : ascii :=
  let n := N_of_ascii c in
  if (65 <=? n)%N && (n <=? 90)%N then ascii_of_N (n + 32) else c.

Fixpoint lower (s : string) : string :=
  match s with
  | EmptyString => EmptyString
  | String c rest => String (lower_ascii c) (lower rest)
  end.

Definition startswith_sep (s : string) : bool :=
  match s with
  | String "/" _ => true
  | _ => false
  end.

Fixpoint endswith_sep (s : string) : bool :=
  match s with
  | EmptyString => false
  | String c EmptyString => bool_decide (c = "/"%char)
  | String _ rest => endswith_sep rest
  end.

(** One round of the loop of [posixpath.join]: an absolute component
    restarts the path, an empty path or a trailing separator takes the
    component as it is, otherwise a separator is put in between. *)
Definition join_step (path b : string) : string :=
  if startswith_sep b then b
  else if bool_decide (path = "") || endswith_sep path then path +:+ b
  else path +:+ "/" +:+ b.

(** [os.path.join(a, *p)] *)
Definition join (a : string) (p : list string) : string :=
  fold_left join_step p a.

(** Truth value of an optional string: [None] and [''] are false. *)
Definition truthy (o : option string) : bool :=
  match o with
  | Some s => negb (bool_decide (s = ""))
  | None => false
  end.

(* ===================================================================== *)
(** ** The world around the module                                        *)
(* ===================================================================== *)

(** How a call of [shutil.copyfile] can end: the copy is made; or an
    [OSError] is raised before the destination is created (a missing
    directory, no permission, source and destination the same file); or
    one is raised while the destination is being written. *)
Inductive copy_outcome := Copied | CopyRefused | CopyBroken.

Record World := mkWorld {
  files : gset string;               (* the files that exist *)
  fs_file : string -> string;        (* the file a path leads to *)
  fs_copy : string -> string -> copy_outcome; (* how shutil.copyfile ends *)
  fs_isdir : string -> bool;         (* os.path.isdir *)
  fs_listdir : string -> list string;(* os.listdir *)
  fs_realpath : string -> string;    (* os.path.realpath *)
  fs_abspath : string -> string;     (* os.path.abspath *)
  EXTENSIONS : gmap string string;   (* the module-level dictionary *)
  port_free : Z -> bool;             (* no other process holds the port *)
  bound_ports : list Z;              (* ports held by sockets of this process *)
  random_source : nat -> nat;        (* the draws of the random generator *)
  random_pos : nat;                  (* how many draws were consumed *)
  kvm_ok : bool                      (* check_output(['kvm-ok']) returns *)
}.

(** The dictionary as the module defines it at import time. *)
Definition EXTENSIONS_init : gmap string string :=
  <["intel-corei7-64" := "wic"]> (<["qemux86-64" := "ota-ext4"]> ∅).

Definition set_files (f : gset string) (w : World) : World :=
  mkWorld f (fs_file w) (fs_copy w)
          (fs_isdir w) (fs_listdir w) (fs_realpath w) (fs_abspath w)
          (EXTENSIONS w) (port_free w) (bound_ports w)
          (random_source w) (random_pos w) (kvm_ok w).

Definition set_EXTENSIONS (e : gmap string string) (w : World) : World :=
  mkWorld (files w) (fs_file w) (fs_copy w)
          (fs_isdir w) (fs_listdir w) (fs_realpath w) (fs_abspath w)
          e (port_free w) (bound_ports w)
          (random_source w) (random_pos w) (kvm_ok w).

Definition set_bound_ports (b : list Z) (w : World) : World :=
  mkWorld (files w) (fs_file w) (fs_copy w)
          (fs_isdir w) (fs_listdir w) (fs_realpath w) (fs_abspath w)
          (EXTENSIONS w) (port_free w) b
          (random_source w) (random_pos w) (kvm_ok w).

Definition set_random_pos (n : nat) (w : World) : World :=
  mkWorld (files w) (fs_file w) (fs_copy w)
          (fs_isdir w) (fs_listdir w) (fs_realpath w) (fs_abspath w)
          (EXTENSIONS w) (port_free w) (bound_ports w)
          (random_source w) n (kvm_ok w).

(* ===================================================================== *)
(** ** Exceptions, output, and the monad of the module's code             *)
(* ===================================================================== *)

(** One constructor per [raise] of the module, plus the exceptions the
    interpreter and the library raise on paths the module can take. *)
Inductive exn :=
  | OverlayNeedsUBoot                 (* EnvironmentError, __init__ *)
  | DirectoryMissing (d : string)     (* ValueError, machine autodetection *)
  | MachineAmbiguous (d : string)     (* ValueError, machine autodetection *)
  | UBootImageMissing (p : string)    (* ValueError, both U-Boot checks *)
  | OSImageMissing (p : string)       (* ValueError, both image checks *)
  | NoFreePort                        (* Exception, find_local_port *)
  | ExistsOfNone                      (* TypeError: os.path.exists(None) *)
  | AttributeUnset (name : string)    (* AttributeError: self.<name> *)
  | PortOutOfRange (port : Z)         (* OverflowError: s.bind(('', port)) *)
  | CopyFailed (src dst : string).    (* OSError: shutil.copyfile(src, dst) *)

(** [OSErrorOfCopy] stands for the subclass of [OSError] a failing copy
    raises ([FileNotFoundError], [PermissionError], [SameFileError], ...). *)
Inductive py_class :=
  | EnvironmentError | ValueError | Exception | TypeError | AttributeError
  | OverflowError | OSErrorOfCopy.

Definition class_of (e : exn) : py_class :=
  match e with
  | OverlayNeedsUBoot => EnvironmentError
  | DirectoryMissing _ | MachineAmbiguous _
  | UBootImageMissing _ | OSImageMissing _ => ValueError
  | NoFreePort => Exception
  | ExistsOfNone => TypeError
  | AttributeUnset _ => AttributeError
  | PortOutOfRange _ => OverflowError
  | CopyFailed _ _ => OSErrorOfCopy
  end.

(** The text of an exception; that of a failed copy is the operating
    system's. *)
Definition message (e : exn) : option string :=
  match e with
  | OverlayNeedsUBoot =>
      Some "An overlay option is currently supported only with U-Boot loader!"
  | DirectoryMissing d =>
      Some ("Directory " +:+ d +:+ " does not exist, please specify a --machine or a valid images directory")
  | MachineAmbiguous d =>
      Some ("Could not autodetect machine type. More than one entry in " +:+ d +:+ ". Maybe --machine qemux86-64?")
  | UBootImageMissing p => Some ("U-Boot image " +:+ p +:+ " does not exist")
  | OSImageMissing p => Some ("OS image " +:+ p +:+ " does not exist")
  | NoFreePort => Some "Could not find a free TCP port"
  | ExistsOfNone =>
      Some "stat: path should be string, bytes, os.PathLike or integer, not NoneType"
  | AttributeUnset name =>
      Some ("'QemuCommand' object has no attribute '" +:+ name +:+ "'")
  | PortOutOfRange _ => Some "bind(): port must be 0-65535."
  | CopyFailed _ _ => None
  end.

(** The error taxonomy of the specification. *)
Inductive spec_error := ConfigurationError | MissingArtifactError | ResourceExhaustionError.

Definition spec_class (e : exn) : option spec_error :=
  match e with
  | OverlayNeedsUBoot | DirectoryMissing _ | MachineAmbiguous _ => Some ConfigurationError
  | UBootImageMissing _ | OSImageMissing _ => Some MissingArtifactError
  | NoFreePort => Some ResourceExhaustionError
  | ExistsOfNone | AttributeUnset _ | PortOutOfRange _ | CopyFailed _ _ => None
  end.

(** What a call leaves behind besides its result. *)
Inductive event :=
  | Stdout (line : string)
  | CopyFile (src dst : string).

Record Run (A : Type) := mkRun {
  res : exn + A;
  after : World;
  log : list event
}.
Arguments mkRun {A} _ _ _.
Arguments res {A} _.
Arguments after {A} _.
Arguments log {A} _.

(** A computation runs in a world; an exception keeps the world and the
    output produced so far. *)
Definition M (A : Type) : Type := World -> Run A.

Definition ret {A} (a : A) : M A := fun w => mkRun (inr a) w [].

Definition raise {A} (e : exn) : M A := fun w => mkRun (inl e) w [].

Definition bind {A B} (m : M A) (k : A -> M B) : M B :=
  fun w =>
    let r := m w in
    match res r with
    | inl e => mkRun (inl e) (after r) (log r)
    | inr a =>
        let r' := k a (after r) in
        mkRun (res r') (after r') (log r ++ log r')
    end.

Notation "x <- c1 ;; c2" := (bind c1 (fun x => c2))
  (at level 100, c1 at next level, right associativity).
Notation "c1 ;; c2" := (bind c1 (fun _ => c2))
  (at level 100, right associativity).

Definition gets {A} (f : World -> A) : M A := fun w => mkRun (inr (f w)) w [].

Definition modify (f : World -> World) : M unit := fun w => mkRun (inr tt) (f w) [].

(** [print(line)] *)
Definition print (line : string) : M unit := fun w => mkRun (inr tt) w [Stdout line].

(** [os.path.exists(p)] on a string: the file [p] leads to exists. *)
Definition exists_ (p : string) : M bool :=
  gets (fun w => bool_decide (fs_file w p ∈ files w)).

(** [os.path.exists(p)] where [p] may be [None]: [os.stat(None)] raises a
    [TypeError], which [exists] does not catch. *)
Definition exists_opt (p : option string) : M bool :=
  match p with
  | Some s => exists_ s
  | None => raise ExistsOfNone
  end.

(** [shutil.copyfile(src, dst)]: afterwards the file of [dst] exists,
    unless the copy was refused; a copy that does not go through raises. *)
Definition copyfile (src dst : string) : M unit :=
  fun w =>
    match fs_copy w src dst with
    | Copied =>
        mkRun (inr tt) (set_files ({[fs_file w dst]} ∪ files w) w) [CopyFile src dst]
    | CopyRefused => mkRun (inl (CopyFailed src dst)) w []
    | CopyBroken =>
        mkRun (inl (CopyFailed src dst)) (set_files ({[fs_file w dst]} ∪ files w) w) []
    end.

(** The copies a call made, in order. *)
Definition copies (l : list event) : list (string * string) :=
  omap (fun e => match e with CopyFile s d => Some (s, d) | Stdout _ => None end) l.

(* ===================================================================== *)
(** ** find_local_port                                                    *)
(* ===================================================================== *)

(** The port numbers [bind] accepts. *)
Definition valid_port (port : Z) : bool := (0 <=? port) && (port <=? 65535).

(** [s.bind(('', port))] succeeds when nobody holds the port; the socket
    then holds it until it is closed. *)
Definition can_bind (w : World) (port : Z) : bool :=
  port_free w port && negb (bool_decide (port ∈ bound_ports w)) && valid_port port.

(** [s.bind(('', port))] on a fresh socket: [true] when the port is bound,
    [false] for a [socket.error]; a port outside [0 .. 65535] raises an
    [OverflowError], which is no [socket.error]. *)
Definition sock_bind (port : Z) : M bool :=
  fun w =>
    if negb (valid_port port) then mkRun (inl (PortOutOfRange port)) w []
    else if can_bind w port
    then mkRun (inr true) (set_bound_ports (port :: bound_ports w) w) []
    else mkRun (inr false) w [].

(** [s.close()] for a socket bound to [held] (or to nothing). *)
Fixpoint release (port : Z) (l : list Z) : list Z :=
  match l with
  | [] => []
  | p :: rest => if bool_decide (p = port) then rest else p :: release port rest
  end.

Definition sock_close (held : option Z) : M unit :=
  match held with
  | Some port => modify (fun w => set_bound_ports (release port (bound_ports w)) w)
  | None => ret tt
  end.

(** [range(a, b)] *)
Definition range (a b : Z) : list Z := seqZ a (b - a).

(** The body of the [for] loop over the remaining ports, with its
    [try]/[except socket.error]/[finally]: an exception of [bind] that is
    no [socket.error] leaves the loop, past the [finally] that closes the
    socket, which holds no port then. *)
Fixpoint find_local_port_loop (ports : list Z) : M Z :=
  match ports with
  | [] => raise NoFreePort
  | port :: rest =>
      bound <- sock_bind port ;;
      if bound then
        sock_close (Some port) ;;
        ret port
      else
        print ("Skipping port " +:+ fmt_d port) ;;
        sock_close None ;;
        find_local_port_loop rest
  end.

Definition find_local_port (start_port : Z) : M Z :=
  find_local_port_loop (range start_port (start_port + 10)).

(* ===================================================================== *)
(** ** random_mac                                                         *)
(* ===================================================================== *)

(** [random.choice(seq)] on a non-empty string. *)
Definition random_choice (seq : string) : M string :=
  fun w =>
    let i := (random_source w (random_pos w) mod String.length seq)%nat in
    mkRun (inr (substring i 1 seq)) (set_random_pos (S (random_pos w)) w) [].

Definition hex_digits : string := "0123456789abcdef".

(** The list comprehension [[choice + choice for _ in range(n)]]. *)
Fixpoint random_octets (n : nat) : M (list string) :=
  match n with
  | O => ret []
  | S n' =>
      hi <- random_choice hex_digits ;;
      lo <- random_choice hex_digits ;;
      rest <- random_octets n' ;;
      ret ((hi +:+ lo) :: rest)
  end.

Definition random_mac : M string :=
  octets <- random_octets 4 ;;
  ret ("ca:fe:" +:+ String.concat ":" octets).

(* ===================================================================== *)
(** ** The parsed options and the object under construction               *)
(* ===================================================================== *)

(** The [args] namespace handed to the constructor.  [uboot_enable] and
    [host_forward] are looked up with [hasattr]: [None] stands for an
    absent attribute ([host_forward] also for one that holds [None]).  The
    options are typed: a [uboot_enable] that is present holds a string. *)
Module args.
Record t := mk {
    dry_run : bool;
    overlay : option string;
    uboot_enable : option string;
    machine : option string;
    dir : string;
    efi : bool;
    bootloader : option string;
    imagename : string;
    mac : option string;
    mem : option string;
    kvm : option bool;
    no_gui : bool;
    gdb : bool;
    pcap : option string;
    secondary_network : bool;
    host_forward : option string
  }.
End args.

(** A Python value that ends up in a command line: a string, or the
    [None] an attribute was initialised with. *)
Inductive pyval :=
  | PStr (s : string)
  | PNone.

Definition of_option (o : option string) : pyval :=
  match o with
  | Some s => PStr s
  | None => PNone
  end.

(** The attributes of a [QemuCommand].  [bios] is assigned on two of the
    three branches of the constructor only: [None] is the unset attribute. *)
Module self.
Record t := mk {
    enable_u_boot : bool;
    dry_run : bool;
    overlay : option string;
    host_fwd : option string;
    kernel : option string;
    drive_interface : string;
    machine : string;
    bios : option string;
    image : string;
    mac_address : string;
    serial_port : Z;
    ssh_port : Z;
    mem : string;
    kvm : bool;
    gui : bool;
    gdb : bool;
    pcap : option string;
    secondary_network : bool
  }.
End self.

(* ===================================================================== *)
(** ** QemuCommand.__init__                                               *)
(* ===================================================================== *)

(** [self.enable_u_boot = True], then the [hasattr(args, 'uboot_enable')]
    override. *)
Definition parse_uboot_enable (a : args.t) : bool :=
  match args.uboot_enable a with
  | Some v => bool_decide (lower v ∈ ["yes"; "true"; "1"])
  | None => true
  end.

(** The overlay guard: U-Boot disabled together with an overlay. *)
Definition check_overlay (a : args.t) (enable_u_boot : bool) : M unit :=
  if negb enable_u_boot && truthy (args.overlay a)
  then raise OverlayNeedsUBoot
  else ret tt.

(** With U-Boot disabled: the drive interface, and the assignment
    [EXTENSIONS['qemux86-64'] = 'ext4'] to the module's dictionary. *)
Definition select_drive (enable_u_boot : bool) : M string :=
  if negb enable_u_boot then
    modify (fun w => set_EXTENSIONS (<["qemux86-64" := "ext4"]> (EXTENSIONS w)) w) ;;
    ret "virtio"
  else ret "ide".

(** [str(o)] for an optional string; every use below sits on a branch
    where [o] is true, so that it is the string [o] holds. *)
Definition fstr (o : option string) : string :=
  match o with
  | Some s => s
  | None => "None"
  end.

(** The [else] branch of the machine selection: the images directory
    must exist and hold exactly one entry. *)
Definition autodetect_machine (a : args.t) : M string :=
  isdir <- gets (fun w => fs_isdir w (args.dir a)) ;;
  if negb isdir then raise (DirectoryMissing (args.dir a))
  else
    machines <- gets (fun w => fs_listdir w (args.dir a)) ;;
    match machines with
    | [m] => ret m
    | _ => raise (MachineAmbiguous (args.dir a))
    end.

(** [self.machine] *)
Definition resolve_machine (a : args.t) : M string :=
  if truthy (args.machine a) then ret (fstr (args.machine a))
  else autodetect_machine a.

(** The block both artifacts go through when an overlay is in use and
    does not exist yet: the source must exist, and it is copied next to
    the overlay unless the copy is already there (printed only, in a dry
    run). *)
Definition keep_copy (a : args.t) (src dst : string) (missing : string -> exn) : M unit :=
  overlay_exists <- exists_opt (args.overlay a) ;;
  if negb overlay_exists then
    src_exists <- exists_ src ;;
    if negb src_exists then raise (missing src)
    else
      dst_exists <- exists_ dst ;;
      if negb dst_exists then
        if args.dry_run a then print ("cp " +:+ src +:+ " " +:+ dst)
        else copyfile src dst
      else ret tt
  else ret tt.

(** [if not exists(path) and (not self.dry_run or exists(self.overlay)): raise] *)
Definition recheck (a : args.t) (path : string) (missing : string -> exn) : M unit :=
  path_exists <- exists_ path ;;
  if negb path_exists then
    if negb (args.dry_run a) then raise (missing path)
    else
      overlay_exists <- exists_opt (args.overlay a) ;;
      if overlay_exists then raise (missing path) else ret tt
  else ret tt.

(** The U-Boot image before any overlay handling. *)
Definition uboot_source (w : World) (a : args.t) (machine : string) : string :=
  if truthy (args.bootloader a) then fstr (args.bootloader a)
  else fs_abspath w (join (args.dir a) [machine; "u-boot-qemux86-64.rom"]).

(** The [elif self.enable_u_boot] branch; the result is [self.bios]. *)
Definition resolve_uboot (a : args.t) (machine : string) : M string :=
  uboot_path <- gets (fun w => uboot_source w a machine) ;;
  uboot_path <-
    (if truthy (args.overlay a) then
       let new_uboot_path := fstr (args.overlay a) +:+ ".u-boot.rom" in
       keep_copy a uboot_path new_uboot_path UBootImageMissing ;;
       ret new_uboot_path
     else ret uboot_path) ;;
  recheck a uboot_path UBootImageMissing ;;
  ret uboot_path.

(** The firmware or kernel selection; the result is the pair
    [(self.bios, self.kernel)]. *)
Definition resolve_boot (a : args.t) (enable_u_boot : bool) (machine : string)
  : M (option string * option string) :=
  if args.efi a then ret (Some "OVMF.fd", None)
  else if enable_u_boot then
    bios <- resolve_uboot a machine ;;
    ret (Some bios, None)
  else
    kernel <- gets (fun w =>
      fs_abspath w (join (args.dir a) [machine; "bzImage-qemux86-64.bin"])) ;;
    ret (None, Some kernel).

(** [EXTENSIONS.get(machine, 'wic')] *)
Definition extension (w : World) (machine : string) : string :=
  default "wic" (EXTENSIONS w !! machine).

(** The local [image] before any overlay handling. *)
Definition base_image (w : World) (a : args.t) (machine : string) : string :=
  if bool_decide (fs_file w (args.imagename a) ∈ files w)
  then fs_realpath w (args.imagename a)
  else
    join (args.dir a)
         [machine; args.imagename a +:+ "-" +:+ machine +:+ "." +:+ extension w machine].

(** The disk image; the result is [self.image]. *)
Definition resolve_image (a : args.t) (machine : string) : M string :=
  image <- gets (fun w => base_image w a machine) ;;
  self_image <-
    (if truthy (args.overlay a) then
       let new_image_path := fstr (args.overlay a) +:+ ".img" in
       keep_copy a image new_image_path OSImageMissing ;;
       ret new_image_path
     else gets (fun w => fs_realpath w image)) ;;
  recheck a self_image OSImageMissing ;;
  ret self_image.

(** [self.kvm]: the option, or whether [kvm-ok] runs without raising. *)
Definition resolve_kvm (a : args.t) : M bool :=
  match args.kvm a with
  | None => gets kvm_ok
  | Some k => ret k
  end.

Module QemuCommand.

Definition __init__ (a : args.t) : M self.t :=
    let enable_u_boot := parse_uboot_enable a in
    check_overlay a enable_u_boot ;;
    drive_interface <- select_drive enable_u_boot ;;
    machine <- resolve_machine a ;;
    boot <- resolve_boot a enable_u_boot machine ;;
    image <- resolve_image a machine ;;
    mac_address <- (if truthy (args.mac a) then ret (fstr (args.mac a)) else random_mac) ;;
    serial_port <- find_local_port 8990 ;;
    ssh_port <- find_local_port 2222 ;;
    kvm <- resolve_kvm a ;;
    ret {| self.enable_u_boot := enable_u_boot;
           self.dry_run := args.dry_run a;
           self.overlay := args.overlay a;
           self.host_fwd := args.host_forward a;
           self.kernel := snd boot;
           self.drive_interface := drive_interface;
           self.machine := machine;
           self.bios := fst boot;
           self.image := image;
           self.mac_address := mac_address;
           self.serial_port := serial_port;
           self.ssh_port := ssh_port;
           self.mem := (if truthy (args.mem a) then fstr (args.mem a) else "1G");
           self.kvm := kvm;
           self.gui := negb (args.no_gui a);
           self.gdb := args.gdb a;
           self.pcap := args.pcap a;
           self.secondary_network := args.secondary_network a |}.

Definition command_line (q : self.t) : M (list pyval) :=
    let netuser :=
      "user,hostfwd=tcp:0.0.0.0:" +:+ fmt_d (self.ssh_port q) +:+ "-:22,restrict=off" in
    let netuser :=
      if self.gdb q then netuser +:+ ",hostfwd=tcp:0.0.0.0:2159-:2159" else netuser in
    let netuser :=
      if truthy (self.host_fwd q) then netuser +:+ ",hostfwd=" +:+ fstr (self.host_fwd q)
      else netuser in
    let cmdline := [PStr "qemu-system-x86_64"] in
    cmdline <-
      (if self.enable_u_boot q then
         match self.bios q with
         | Some bios => ret (cmdline ++ [PStr "-bios"; PStr bios])
         | None => raise (AttributeUnset "bios")
         end
       else ret (cmdline ++ [PStr "-kernel"; of_option (self.kernel q)])) ;;
    let cmdline :=
      if negb (truthy (self.overlay q)) then
        cmdline ++ [PStr "-drive";
                    PStr ("file=" +:+ self.image q +:+ ",if=" +:+ self.drive_interface q
                          +:+ ",format=raw,snapshot=on")]
      else cmdline in
    let cmdline :=
      cmdline ++ [PStr "-serial";
                  PStr ("tcp:127.0.0.1:" +:+ fmt_d (self.serial_port q) +:+ ",server,nowait");
                  PStr "-m";
                  PStr (self.mem q);
                  PStr "-object";
                  PStr "rng-random,id=rng0,filename=/dev/urandom";
                  PStr "-device";
                  PStr "virtio-rng-pci,rng=rng0";
                  PStr "-net";
                  PStr netuser;
                  PStr "-net";
                  PStr ("nic,macaddr=" +:+ self.mac_address q)] in
    let cmdline :=
      if truthy (self.pcap q)
      then cmdline ++ [PStr "-net"; PStr ("dump,file=" +:+ fstr (self.pcap q))]
      else cmdline in
    cmdline <-
      (if self.secondary_network q then
         mac <- random_mac ;;
         ret (cmdline ++ [PStr "-netdev";
                          PStr "socket,id=vlan1,mcast=230.0.0.1:1234,localaddr=127.0.0.1";
                          PStr "-device";
                          PStr ("e1000,netdev=vlan1,mac=" +:+ mac)])
       else ret cmdline) ;;
    let cmdline :=
      if self.gui q then
        cmdline ++ [PStr "-usb"; PStr "-device"; PStr "usb-tablet";
                    PStr "-show-cursor"; PStr "-vga"; PStr "std"]
      else
        cmdline ++ [PStr "-nographic"; PStr "-monitor"; PStr "null"] in
    let cmdline :=
      cmdline ++ (if self.kvm q then [PStr "-enable-kvm"; PStr "-cpu"; PStr "host"]
                  else [PStr "-cpu"; PStr "Haswell"]) in
    let cmdline :=
      if truthy (self.overlay q) then cmdline ++ [of_option (self.overlay q)]
      else cmdline in
    let cmdline :=
      if negb (self.enable_u_boot q) then
        cmdline ++ [PStr "-append";
                    PStr "root=/dev/vda rw highres=off console=ttyS0 ip=dhcp"]
      else cmdline in
    ret cmdline.

Definition img_command_line (q : self.t) : list pyval :=
    [PStr "qemu-img";
     PStr "create";
     PStr "-o";
     PStr ("backing_file=" +:+ self.image q);
     PStr "-f";
     PStr "qcow2";
     of_option (self.overlay q)].

End QemuCommand.

(* ===================================================================== *)
(** ** Vocabulary of the properties                                       *)
(* ===================================================================== *)

(** [m] maintains the invariant [I] of the world, only produces output
    with the property [L] and only raises exceptions with the property
    [E], whether it returns or raises. *)
Definition keeps (I : World -> Prop) (L : list event -> Prop) (E : exn -> Prop)
    {A} (m : M A) : Prop :=
  forall w, I w ->
    I (after (m w)) /\ L (log (m w)) /\ (forall e, res (m w) = inl e -> E e).

(** A run with some output put in front of its own. *)
Definition emit {A} (l : list event) (r : Run A) : Run A :=
  mkRun (res r) (after r) (l ++ log r).

(** The line [find_local_port] prints for a port it could not bind. *)
Definition skipping (port : Z) : event := Stdout ("Skipping port " +:+ fmt_d port).

#[global] Instance pyval_eq_dec : EqDecision pyval.
Proof. solve_decision. Defined.

(** The token [a] occurs in [l] immediately followed by [b]. *)
Definition follows (a b : pyval) (l : list pyval) : Prop :=
  exists l1 l2, l = l1 ++ a :: b :: l2.

Fixpoint followsb (a b : pyval) (l : list pyval) : bool :=
  match l with
  | x :: (y :: _) as rest =>
      (bool_decide (x = a) && bool_decide (y = b)) || followsb a b rest
  | _ => false
  end.

(** The extension of a synthesized image name in the words of the
    specification: the fixed table, with the entry of [qemux86-64]
    depending on whether U-Boot is enabled. *)
Definition spec_extension (uboot_enabled : bool) (machine : string) : string :=
  if bool_decide (machine = "intel-corei7-64") then "wic"
  else if bool_decide (machine = "qemux86-64") then
    (if uboot_enabled then "ota-ext4" else "ext4")
  else "wic".

(** The pieces [command_line] strings together, in its order. *)
Definition netuser (q : self.t) : string :=
  let netuser :=
    "user,hostfwd=tcp:0.0.0.0:" +:+ fmt_d (self.ssh_port q) +:+ "-:22,restrict=off" in
  let netuser :=
    if self.gdb q then netuser +:+ ",hostfwd=tcp:0.0.0.0:2159-:2159" else netuser in
  if truthy (self.host_fwd q) then netuser +:+ ",hostfwd=" +:+ fstr (self.host_fwd q)
  else netuser.

Definition boot_tokens (q : self.t) : exn + list pyval :=
  if self.enable_u_boot q then
    match self.bios q with
    | Some bios => inr [PStr "-bios"; PStr bios]
    | None => inl (AttributeUnset "bios")
    end
  else inr [PStr "-kernel"; of_option (self.kernel q)].

Definition drive_tokens (q : self.t) : list pyval :=
  if negb (truthy (self.overlay q)) then
    [PStr "-drive";
     PStr ("file=" +:+ self.image q +:+ ",if=" +:+ self.drive_interface q
           +:+ ",format=raw,snapshot=on")]
  else [].

Definition fixed_tokens (q : self.t) : list pyval :=
  [PStr "-serial";
   PStr ("tcp:127.0.0.1:" +:+ fmt_d (self.serial_port q) +:+ ",server,nowait");
   PStr "-m";
   PStr (self.mem q);
   PStr "-object";
   PStr "rng-random,id=rng0,filename=/dev/urandom";
   PStr "-device";
   PStr "virtio-rng-pci,rng=rng0";
   PStr "-net";
   PStr (netuser q);
   PStr "-net";
   PStr ("nic,macaddr=" +:+ self.mac_address q)].

Definition pcap_tokens (q : self.t) : list pyval :=
  if truthy (self.pcap q)
  then [PStr "-net"; PStr ("dump,file=" +:+ fstr (self.pcap q))]
  else [].

Definition secondary_tokens (mac : string) : list pyval :=
  [PStr "-netdev";
   PStr "socket,id=vlan1,mcast=230.0.0.1:1234,localaddr=127.0.0.1";
   PStr "-device";
   PStr ("e1000,netdev=vlan1,mac=" +:+ mac)].

Definition tail_tokens (q : self.t) : list pyval :=
  (if self.gui q then
     [PStr "-usb"; PStr "-device"; PStr "usb-tablet";
      PStr "-show-cursor"; PStr "-vga"; PStr "std"]
   else [PStr "-nographic"; PStr "-monitor"; PStr "null"])
  ++ (if self.kvm q then [PStr "-enable-kvm"; PStr "-cpu"; PStr "host"]
      else [PStr "-cpu"; PStr "Haswell"])
  ++ (if truthy (self.overlay q) then [of_option (self.overlay q)] else [])
  ++ (if negb (self.enable_u_boot q) then
        [PStr "-append"; PStr "root=/dev/vda rw highres=off console=ttyS0 ip=dhcp"]
      else []).

Definition assemble (q : self.t) (boot secondary : list pyval) : list pyval :=
  [PStr "qemu-system-x86_64"] ++ boot ++ drive_tokens q ++ fixed_tokens q
  ++ pcap_tokens q ++ secondary ++ tail_tokens q.

(** The MAC address [random_mac] returns in a world. *)
Definition mac_drawn (w : World) : string :=
  match res (random_mac w) with
  | inr mac => mac
  | inl _ => ""
  end.

(** What can happen in the process between two moments: constructions,
    command lines, and anything outside the module, which cannot reach
    the module's dictionary. *)
Inductive later : World -> World -> Prop :=
  | later_now w : later w w
  | later_construct a w w' :
      later (after (QemuCommand.__init__ a w)) w' -> later w w'
  | later_command q w w' :
      later (after (QemuCommand.command_line q w)) w' -> later w w'
  | later_outside w w1 w' :
      EXTENSIONS w1 = EXTENSIONS w -> later w1 w' -> later w w'.

(** *** Sample worlds and options *)

(** A build tree for [qemux86-64] under [img], seen from [/b]; every
    path leads to a file of its own and every copy goes through; port 8990
    is taken, every other port is free. *)
Definition tree_world : World :=
  mkWorld {[ "img/qemux86-64/core-qemux86-64.ota-ext4";
             "img/qemux86-64/core-qemux86-64.ext4";
             "/b/img/qemux86-64/u-boot-qemux86-64.rom";
             "/b/img/qemux86-64/bzImage-qemux86-64.bin" ]}
          (fun p => p)
          (fun _ _ => Copied)
          (fun d => bool_decide (d = "img"))
          (fun d => if bool_decide (d = "img") then ["qemux86-64"] else [])
          (fun p => p)
          (fun p => "/b/" +:+ p)
          EXTENSIONS_init
          (fun port => negb (bool_decide (port = 8990)))
          []
          (fun n => n)
          0%nat
          false.

(** The same machine with an empty disk. *)
Definition bare_world : World := set_files ∅ tree_world.

(** The same machine with every port taken. *)
Definition crowded_world : World :=
  mkWorld (files tree_world) (fs_file tree_world) (fs_copy tree_world)
          (fs_isdir tree_world) (fs_listdir tree_world)
          (fs_realpath tree_world) (fs_abspath tree_world) EXTENSIONS_init
          (fun _ => false) [] (fun n => n) 0%nat false.

(** The same machine where a leading [./] makes no difference to where
    a path leads. *)
Definition strip_dot (p : string) : string :=
  match p with
  | String "." (String "/" rest) => rest
  | _ => p
  end.

Definition dotted_world : World :=
  mkWorld (files tree_world) strip_dot (fs_copy tree_world)
          (fs_isdir tree_world) (fs_listdir tree_world)
          (fs_realpath tree_world) (fs_abspath tree_world) EXTENSIONS_init
          (port_free tree_world) [] (fun n => n) 0%nat false.

(** [--machine qemux86-64 --dir img core --no-gui], nothing else. *)
Definition plain_args : args.t :=
  {| args.dry_run := false; args.overlay := None; args.uboot_enable := None;
     args.machine := Some "qemux86-64"; args.dir := "img"; args.efi := false;
     args.bootloader := None; args.imagename := "core"; args.mac := None;
     args.mem := None; args.kvm := None; args.no_gui := true; args.gdb := false;
     args.pcap := None; args.secondary_network := false;
     args.host_forward := None |}.

Definition with_uboot_enable (v : string) (a : args.t) : args.t :=
  {| args.dry_run := args.dry_run a; args.overlay := args.overlay a;
     args.uboot_enable := Some v;
     args.machine := args.machine a; args.dir := args.dir a; args.efi := args.efi a;
     args.bootloader := args.bootloader a; args.imagename := args.imagename a;
     args.mac := args.mac a; args.mem := args.mem a; args.kvm := args.kvm a;
     args.no_gui := args.no_gui a; args.gdb := args.gdb a; args.pcap := args.pcap a;
     args.secondary_network := args.secondary_network a;
     args.host_forward := args.host_forward a |}.

Definition with_overlay (o : string) (a : args.t) : args.t :=
  {| args.dry_run := args.dry_run a; args.overlay := Some o;
     args.uboot_enable := args.uboot_enable a;
     args.machine := args.machine a; args.dir := args.dir a; args.efi := args.efi a;
     args.bootloader := args.bootloader a; args.imagename := args.imagename a;
     args.mac := args.mac a; args.mem := args.mem a; args.kvm := args.kvm a;
     args.no_gui := args.no_gui a; args.gdb := args.gdb a; args.pcap := args.pcap a;
     args.secondary_network := args.secondary_network a;
     args.host_forward := args.host_forward a |}.

Definition with_flags (dry_run efi secondary_network : bool) (a : args.t) : args.t :=
  {| args.dry_run := dry_run; args.overlay := args.overlay a;
     args.uboot_enable := args.uboot_enable a;
     args.machine := args.machine a; args.dir := args.dir a; args.efi := efi;
     args.bootloader := args.bootloader a; args.imagename := args.imagename a;
     args.mac := args.mac a; args.mem := args.mem a; args.kvm := args.kvm a;
     args.no_gui := args.no_gui a; args.gdb := args.gdb a; args.pcap := args.pcap a;
     args.secondary_network := secondary_network;
     args.host_forward := args.host_forward a |}.

(** The object [plain_args] yields in [tree_world]. *)
Definition plain_object : self.t :=
  {| self.enable_u_boot := true; self.dry_run := false; self.overlay := None;
     self.host_fwd := None; self.kernel := None; self.drive_interface := "ide";
     self.machine := "qemux86-64";
     self.bios := Some "/b/img/qemux86-64/u-boot-qemux86-64.rom";
     self.image := "img/qemux86-64/core-qemux86-64.ota-ext4";
     self.mac_address := "ca:fe:01:23:45:67";
     self.serial_port := 8991; self.ssh_port := 2222; self.mem := "1G";
     self.kvm := false; self.gui := false; self.gdb := false; self.pcap := None;
     self.secondary_network := false |}.

(* ===================================================================== *)
(** ** Vocabulary of the further properties                               *)
(* ===================================================================== *)

(** A character of [hex_digits]. *)
Definition is_hex (c : ascii) : bool :=
  existsb (Ascii.eqb c) (list_ascii_of_string hex_digits).

(** Shapes of strings: a given character, or any hexadecimal digit. *)
Inductive shape :=
  | Lit (c : ascii)
  | Hex.

Fixpoint has_shape (p : list shape) (s : string) : bool :=
  match p, s with
  | [], EmptyString => true
  | Lit c :: p', String x s' => Ascii.eqb x c && has_shape p' s'
  | Hex :: p', String x s' => is_hex x && has_shape p' s'
  | _, _ => false
  end.

(** [ca:fe:XX:XX:XX:XX] *)
Definition mac_shape : list shape :=
  [Lit "c"; Lit "a"; Lit ":"; Lit "f"; Lit "e"; Lit ":"; Hex; Hex; Lit ":";
   Hex; Hex; Lit ":"; Hex; Hex; Lit ":"; Hex; Hex].

(** What an exception the constructor raises tells about the options and
    the starting world; nothing is said about the exception of
    [find_local_port] and about an [AttributeError]. *)
Definition raised_for (a : args.t) (w : World) (e : exn) : Prop :=
  match e with
  | OverlayNeedsUBoot => truthy (args.overlay a) = true
  | DirectoryMissing d | MachineAmbiguous d =>
      d = args.dir a /\ truthy (args.machine a) = false
  | UBootImageMissing p | OSImageMissing p =>
      (fs_file w p ∉ files w) /\ (args.dry_run a = false \/ is_Some (args.overlay a))
  | ExistsOfNone => args.overlay a = None
  | PortOutOfRange _ => False
  | CopyFailed src dst =>
      args.dry_run a = false /\ truthy (args.overlay a) = true /\
      (dst = fstr (args.overlay a) +:+ ".u-boot.rom" \/
       dst = fstr (args.overlay a) +:+ ".img")
  | NoFreePort | AttributeUnset _ => True
  end.

Definition with_imagename (n : string) (a : args.t) : args.t :=
  {| args.dry_run := args.dry_run a; args.overlay := args.overlay a;
     args.uboot_enable := args.uboot_enable a;
     args.machine := args.machine a; args.dir := args.dir a; args.efi := args.efi a;
     args.bootloader := args.bootloader a; args.imagename := n;
     args.mac := args.mac a; args.mem := args.mem a; args.kvm := args.kvm a;
     args.no_gui := args.no_gui a; args.gdb := args.gdb a; args.pcap := args.pcap a;
     args.secondary_network := args.secondary_network a;
     args.host_forward := args.host_forward a |}.

(** The build tree with the overlay [foo.img] and its two copies in
    place. *)
Definition overlay_world : World :=
  set_files ({[ "foo.img"; "foo.img.u-boot.rom"; "foo.img.img" ]} ∪ files tree_world)
            tree_world.

(* ===================================================================== *)
(** ** Running computations                                               *)
(* ===================================================================== *)

Lemma run_eta {A} (r : Run A) : r = mkRun (res r) (after r) (log r).
Proof. by destruct r. Qed.

(** A sequence that returns went through both of its halves. *)
Lemma bind_inr {A B} (m : M A) (k : A -> M B) w b w' ev :
  bind m k w = mkRun (inr b) w' ev ->
  exists a w1 ev1 ev2,
    m w = mkRun (inr a) w1 ev1 /\ k a w1 = mkRun (inr b) w' ev2 /\ ev = ev1 ++ ev2.
Proof.
  unfold bind. destruct (m w) as [[e|a] w1 ev1]; simpl; [discriminate|].
  destruct (k a w1) as [r2 w2 ev2] eqn:Hk; simpl. intros [= -> -> <-].
  by exists a, w1, ev1, ev2.
Qed.

(** A sequence whose first half returns continues with the second. *)
Lemma bind_step {A B} (m : M A) (k : A -> M B) w a w1 ev1 :
  m w = mkRun (inr a) w1 ev1 ->
  bind m k w = mkRun (res (k a w1)) (after (k a w1)) (ev1 ++ log (k a w1)).
Proof. unfold bind. by intros ->. Qed.

Lemma bind_quiet {A B} (m : M A) (k : A -> M B) w a :
  m w = mkRun (inr a) w [] -> bind m k w = k a w.
Proof. intros H. rewrite (bind_step _ _ _ _ _ _ H). simpl. by rewrite <- run_eta. Qed.

Lemma bind_silent {A B} (m : M A) (k : A -> M B) w a w1 :
  m w = mkRun (inr a) w1 [] -> bind m k w = k a w1.
Proof. intros H. rewrite (bind_step _ _ _ _ _ _ H). simpl. by rewrite <- run_eta. Qed.

Lemma bind_raise {A B} (m : M A) (k : A -> M B) w e w1 ev1 :
  m w = mkRun (inl e) w1 ev1 -> bind m k w = mkRun (inl e) w1 ev1.
Proof. unfold bind. by intros ->. Qed.

(** Invariants of the world and properties of the output that every step
    of a computation maintains carry over to the whole computation,
    whether it returns or raises. *)
Section Keeps.
Variable I : World -> Prop.
Variable L : list event -> Prop.
Variable E : exn -> Prop.
Hypothesis L_nil : L [].
Hypothesis L_app : forall l1 l2, L l1 -> L l2 -> L (l1 ++ l2).

Lemma keeps_ret {A} (a : A) : keeps I L E (ret a).
Proof. by intros w Hw. Qed.

Lemma keeps_raise {A} e : E e -> keeps I L E (@raise A e).
Proof. intros He w Hw. do 2 (split; [done|]). by intros e' [= <-]. Qed.

Lemma keeps_gets {A} (f : World -> A) : keeps I L E (gets f).
Proof. by intros w Hw. Qed.

Lemma keeps_bind {A B} (m : M A) (k : A -> M B) :
  keeps I L E m -> (forall a, keeps I L E (k a)) -> keeps I L E (bind m k).
Proof.
  intros Hm Hk w Hw. unfold bind.
  destruct (Hm w Hw) as (Hw1 & Hl1 & He1).
  destruct (res (m w)) as [e|x]; simpl.
  { do 2 (split; [done|]). intros e' [= <-]. by apply He1. }
  destruct (Hk x _ Hw1) as (Hw2 & Hl2 & He2). auto.
Qed.

Lemma keeps_if {A} (b : bool) (m1 m2 : M A) :
  (b = true -> keeps I L E m1) -> (b = false -> keeps I L E m2) ->
  keeps I L E (if b then m1 else m2).
Proof. destruct b; auto. Qed.

End Keeps.

(* ===================================================================== *)
(** ** Properties of find_local_port                                      *)
(* ===================================================================== *)

Lemma release_head port l : release port (port :: l) = l.
Proof. simpl. by rewrite bool_decide_eq_true_2. Qed.

Lemma set_bound_ports_id w : set_bound_ports (bound_ports w) w = w.
Proof. by destruct w. Qed.

(** Only a port number that [bind] accepts can be bound. *)
Lemma can_bind_valid w port : can_bind w port = true -> valid_port port = true.
Proof. unfold can_bind. intros H. by apply andb_true_iff in H as [_ ?]. Qed.

Lemma valid_port_range port : valid_port port = true <-> 0 <= port <= 65535.
Proof. unfold valid_port. rewrite andb_true_iff, !Z.leb_le. lia. Qed.

(** A successful probe hands the port back before it returns. *)
Lemma probe_bound w port rest :
  can_bind w port = true ->
  find_local_port_loop (port :: rest) w = mkRun (inr port) w [].
Proof.
  intros H. pose proof (can_bind_valid _ _ H) as Hv.
  simpl. unfold bind, sock_bind. rewrite Hv, H. simpl.
  rewrite bool_decide_eq_true_2 by done. by destruct w.
Qed.

Lemma probe_skipped w port rest :
  valid_port port = true ->
  can_bind w port = false ->
  find_local_port_loop (port :: rest) w =
  let r := find_local_port_loop rest w in
  mkRun (res r) (after r) (skipping port :: log r).
Proof.
  intros Hv H. simpl. unfold bind, sock_bind. rewrite Hv, H. simpl.
  by destruct (res (find_local_port_loop rest w)).
Qed.

(** A port number that [bind] does not accept ends the search. *)
Lemma probe_overflow w port rest :
  valid_port port = false ->
  find_local_port_loop (port :: rest) w = mkRun (inl (PortOutOfRange port)) w [].
Proof. intros Hv. simpl. unfold bind, sock_bind. by rewrite Hv. Qed.

Lemma loop_exhausted w ports :
  (forall p, p ∈ ports -> valid_port p = true /\ can_bind w p = false) ->
  find_local_port_loop ports w = mkRun (inl NoFreePort) w (skipping <$> ports).
Proof.
  induction ports as [|p ports IH]; intros H; [done|].
  destruct (H p) as [Hv Hb]; [left|].
  rewrite probe_skipped by done.
  rewrite IH; [done|]. intros q Hq. apply H. by right.
Qed.

Lemma loop_first_free w busy port rest :
  (forall p, p ∈ busy -> valid_port p = true /\ can_bind w p = false) ->
  can_bind w port = true ->
  find_local_port_loop (busy ++ port :: rest) w = mkRun (inr port) w (skipping <$> busy).
Proof.
  induction busy as [|p busy IH]; intros H Hfree; simpl app.
  - by apply probe_bound.
  - destruct (H p) as [Hv Hb]; [left|].
    rewrite probe_skipped by done.
    rewrite IH; [done| |done]. intros q Hq. apply H. by right.
Qed.

Lemma loop_overflow w busy port rest :
  (forall p, p ∈ busy -> valid_port p = true /\ can_bind w p = false) ->
  valid_port port = false ->
  find_local_port_loop (busy ++ port :: rest) w
  = mkRun (inl (PortOutOfRange port)) w (skipping <$> busy).
Proof.
  induction busy as [|p busy IH]; intros H Hout; simpl app.
  - by apply probe_overflow.
  - destruct (H p) as [Hv Hb]; [left|].
    rewrite probe_skipped by done.
    rewrite IH; [done| |done]. intros q Hq. apply H. by right.
Qed.

(** The window [range(p, p + 10)], split at its [n]th port. *)
Lemma range_split p n :
  0 <= n < 10 ->
  range p (p + 10) = seqZ p n ++ (p + n) :: seqZ (p + n + 1) (9 - n).
Proof.
  intros Hn. unfold range. replace (p + 10 - p) with (n + (10 - n)) by lia.
  rewrite seqZ_app by lia. f_equal.
  rewrite seqZ_cons by lia. f_equal. f_equal; lia.
Qed.

(** The loop stops at the first port that can be bound or that [bind]
    does not accept, having printed a line for each port before it, or
    runs out of ports. *)
Lemma find_local_port_loop_cases ports w :
  (exists busy port rest,
     ports = busy ++ port :: rest /\
     (forall p, p ∈ busy -> valid_port p = true /\ can_bind w p = false) /\
     ((can_bind w port = true /\
       find_local_port_loop ports w = mkRun (inr port) w (skipping <$> busy)) \/
      (valid_port port = false /\
       find_local_port_loop ports w
       = mkRun (inl (PortOutOfRange port)) w (skipping <$> busy)))) \/
  ((forall p, p ∈ ports -> valid_port p = true /\ can_bind w p = false) /\
   find_local_port_loop ports w = mkRun (inl NoFreePort) w (skipping <$> ports)).
Proof.
  induction ports as [|p ports IH].
  - right. split; [|done]. intros p Hp. by apply elem_of_nil in Hp.
  - destruct (valid_port p) eqn:Hv; [destruct (can_bind w p) eqn:Hp|].
    + left. exists [], p, ports. split; [done|]. split.
      * intros x Hx. by apply elem_of_nil in Hx.
      * left. split; [done|]. by apply probe_bound.
    + destruct IH as [(busy & port & rest & -> & Hbusy & Hrun)|[Hall Hrun]].
      * left. exists (p :: busy), port, rest. split; [done|]. split.
        -- intros x Hx. apply elem_of_cons in Hx as [->|Hx]; auto.
        -- rewrite probe_skipped by done.
           destruct Hrun as [[Hport ->]|[Hport ->]]; [left|right]; done.
      * right. split.
        -- intros x Hx. apply elem_of_cons in Hx as [->|Hx]; auto.
        -- rewrite probe_skipped by done. by rewrite Hrun.
    + left. exists [], p, ports. split; [done|]. split.
      * intros x Hx. by apply elem_of_nil in Hx.
      * right. split; [done|]. by apply probe_overflow.
Qed.

(** Whatever happens, the finder leaves the world as it found it. *)
Lemma find_local_port_loop_after ports w : after (find_local_port_loop ports w) = w.
Proof.
  destruct (find_local_port_loop_cases ports w)
    as [(busy & port & rest & _ & _ & [[_ ->]|[_ ->]])|[_ ->]]; done.
Qed.

Lemma skipping_copies (ports : list Z) : copies (skipping <$> ports) = [].
Proof. induction ports as [|p ports IH]; [done|exact IH]. Qed.

Lemma find_local_port_loop_copies ports w :
  copies (log (find_local_port_loop ports w)) = [].
Proof.
  destruct (find_local_port_loop_cases ports w)
    as [(busy & port & rest & _ & _ & [[_ ->]|[_ ->]])|[_ ->]];
    apply skipping_copies.
Qed.

(** A window that starts at a valid port and ends at one holds valid
    ports only. *)
Lemma window_valid p n x :
  0 <= p -> p + n - 1 <= 65535 -> x ∈ seqZ p n -> valid_port x = true.
Proof. intros H0 H1 Hx. apply elem_of_seqZ in Hx. apply valid_port_range. lia. Qed.

(** C8, as the code has it.  From a starting port [p >= 0]: with the
    ten ports [p .. p+9] all port numbers ([p + 9 <= 65535]) that refuse
    the bind, the finder raises the exception of [find_local_port] (the
    specification's ResourceExhaustionError); when the [N]th port of the
    window is the first that binds, the finder returns exactly
    [p + N - 1]; when the [N]th port is 65536, the first number that is
    no port, and none before it binds, the [OverflowError] of [bind]
    leaves the finder, which is none of the specification's errors.  From
    a starting port [p < 0] that [OverflowError] is raised at once.
    Every time every probed socket is closed again: the process holds no
    port afterwards that it did not hold before. *)
Theorem find_local_port_window (w : World) (p : Z) :
  (0 <= p ->
   (p + 9 <= 65535 ->
    (forall i, 0 <= i < 10 -> can_bind w (p + i) = false) ->
    res (find_local_port p w) = inl NoFreePort /\
    spec_class NoFreePort = Some ResourceExhaustionError /\
    after (find_local_port p w) = w) /\
   (forall N, 1 <= N <= 10 ->
      (forall i, 0 <= i < N - 1 -> can_bind w (p + i) = false) ->
      (can_bind w (p + (N - 1)) = true ->
       res (find_local_port p w) = inr (p + N - 1) /\
       after (find_local_port p w) = w) /\
      (p + (N - 1) = 65536 ->
       res (find_local_port p w) = inl (PortOutOfRange 65536) /\
       class_of (PortOutOfRange 65536) = OverflowError /\
       spec_class (PortOutOfRange 65536) = None /\
       after (find_local_port p w) = w))) /\
  (p < 0 ->
   res (find_local_port p w) = inl (PortOutOfRange p) /\
   after (find_local_port p w) = w).
Proof.
  split; [intros Hp; split|].
  - intros Htop H. unfold find_local_port. rewrite loop_exhausted; [done|].
    intros q Hq. split.
    + apply (window_valid p (p + 10 - p)); [done|lia|done].
    + unfold range in Hq. apply elem_of_seqZ in Hq.
      replace q with (p + (q - p)) by lia. apply H. lia.
  - intros N HN Hbusy.
    assert (forall q, q ∈ seqZ p (N - 1) ->
              (can_bind w (p + (N - 1)) = true \/ p + (N - 1) = 65536) ->
              valid_port q = true /\ can_bind w q = false) as Hall.
    { intros q Hq Hwhy. apply elem_of_seqZ in Hq. split.
      - apply valid_port_range. destruct Hwhy as [Hb|Hb]; [|lia].
        apply can_bind_valid, valid_port_range in Hb. lia.
      - replace q with (p + (q - p)) by lia. apply Hbusy. lia. }
    split.
    + intros Hfree. unfold find_local_port.
      rewrite (range_split p (N - 1)) by lia.
      rewrite loop_first_free; [| |done].
      * simpl. split; [f_equal; lia|done].
      * intros q Hq. apply Hall; auto.
    + intros Hout. unfold find_local_port.
      rewrite (range_split p (N - 1)) by lia.
      rewrite loop_overflow; [by rewrite Hout| |].
      * intros q Hq. apply Hall; auto.
      * apply not_true_is_false. rewrite valid_port_range. lia.
  - intros Hp. unfold find_local_port, range. rewrite seqZ_cons by lia.
    rewrite probe_overflow; [done|].
    apply not_true_is_false. rewrite valid_port_range. lia.
Qed.

(** C8 fails where the window leaves the port numbers.  With every
    port taken, the window that starts at 65530 makes the finder ask for
    port 65536 after six refusals, and [bind] raises an [OverflowError],
    not the exception of [find_local_port]; and the window that starts at
    -1 ends in that [OverflowError] at once, although its second port, 0,
    would bind. *)
Lemma find_local_port_window_leaves_range :
  ~ (forall w p,
       (forall i, 0 <= i < 10 -> can_bind w (p + i) = false) ->
       res (find_local_port p w) = inl NoFreePort) /\
  ~ (forall w p N,
       1 <= N <= 10 ->
       (forall i, 0 <= i < N - 1 -> can_bind w (p + i) = false) ->
       can_bind w (p + (N - 1)) = true ->
       res (find_local_port p w) = inr (p + N - 1)).
Proof.
  split; intros H.
  - assert (res (find_local_port 65530 crowded_world) = inl (PortOutOfRange 65536))
      as Hr by (vm_compute; reflexivity).
    rewrite (H crowded_world 65530) in Hr; [discriminate|].
    intros i Hi. reflexivity.
  - assert (res (find_local_port (-1) tree_world) = inl (PortOutOfRange (-1)))
      as Hr by (vm_compute; reflexivity).
    rewrite (H tree_world (-1) 2) in Hr; [discriminate|lia| |reflexivity].
    intros i Hi. assert (i = 0) as -> by lia. reflexivity.
Qed.

(* ===================================================================== *)
(** ** Properties of random_mac and command_line                          *)
(* ===================================================================== *)

(** [random_mac] always returns, draws eight digits and prints nothing. *)
Lemma random_mac_run w :
  random_mac w = mkRun (inr (mac_drawn w)) (set_random_pos (8 + random_pos w) w) [].
Proof. reflexivity. Qed.

(** [command_line] puts its pieces together; only the secondary network
    device makes it look at the world. *)
Lemma command_line_eq q w :
  QemuCommand.command_line q w =
  match boot_tokens q with
  | inl e => mkRun (inl e) w []
  | inr boot =>
      if self.secondary_network q then
        mkRun (inr (assemble q boot (secondary_tokens (mac_drawn w))))
              (set_random_pos (8 + random_pos w) w) []
      else mkRun (inr (assemble q boot [])) w []
  end.
Proof.
  unfold QemuCommand.command_line, boot_tokens, assemble, drive_tokens, pcap_tokens,
    tail_tokens, fixed_tokens, netuser.
  destruct (self.enable_u_boot q); [destruct (self.bios q)|];
    try reflexivity;
    destruct (truthy (self.overlay q)), (truthy (self.pcap q)),
      (self.secondary_network q), (self.gui q), (self.kvm q); reflexivity.
Qed.

Lemma follows_here a b l1 l2 : follows a b (l1 ++ a :: b :: l2).
Proof. by exists l1, l2. Qed.

Lemma follows_app_l a b l l' : follows a b l -> follows a b (l ++ l').
Proof.
  intros (l1 & l2 & ->). exists l1, (l2 ++ l'). by rewrite <- app_assoc.
Qed.

Lemma follows_app_r a b l l' : follows a b l' -> follows a b (l ++ l').
Proof.
  intros (l1 & l2 & ->). exists (l ++ l1), l2. by rewrite <- app_assoc.
Qed.

Lemma follows_cons a b x l : follows a b l -> follows a b (x :: l).
Proof. apply (follows_app_r a b [x]). Qed.

Lemma followsb_follows a b l : followsb a b l = true -> follows a b l.
Proof.
  induction l as [|x [|y l] IH]; simpl; try discriminate.
  intros H. apply orb_true_iff in H as [H|H].
  - apply andb_true_iff in H as [Hx Hy].
    apply bool_decide_eq_true_1 in Hx, Hy. subst. apply (follows_here _ _ []).
  - apply follows_cons. by apply IH.
Qed.

Lemma run_of_res {A} (r : Run A) x : res r = x -> r = mkRun x (after r) (log r).
Proof. intros <-. apply run_eta. Qed.

Example plain_construction :
  res (QemuCommand.__init__ plain_args tree_world) = inr plain_object.
Proof. vm_compute. reflexivity. Qed.

(* ===================================================================== *)
(** ** C1: the overlay guard                                              *)
(* ===================================================================== *)

(** C1: when an overlay is given and [uboot_enable] holds a value that
    disables U-Boot, the constructor raises its [EnvironmentError] (the
    specification's ConfigurationError) whatever the other options and the
    world are; it raises before it touches anything, so that no object is
    produced, the world is unchanged and nothing was printed or copied. *)
Theorem overlay_without_uboot_raises (a : args.t) (w : World) (v : string) :
  truthy (args.overlay a) = true ->
  args.uboot_enable a = Some v ->
  lower v ∉ ["yes"; "true"; "1"] ->
  QemuCommand.__init__ a w = mkRun (inl OverlayNeedsUBoot) w [] /\
  class_of OverlayNeedsUBoot = EnvironmentError /\
  spec_class OverlayNeedsUBoot = Some ConfigurationError.
Proof.
  intros Hov Hv Hno. split; [|done].
  unfold QemuCommand.__init__, check_overlay, parse_uboot_enable.
  rewrite Hv, Hov, bool_decide_eq_false_2 by done. reflexivity.
Qed.

Lemma overlay_without_uboot_raises_witness :
  QemuCommand.__init__ (with_overlay "foo.img" (with_uboot_enable "no" plain_args))
                       tree_world
  = mkRun (inl OverlayNeedsUBoot) tree_world [].
Proof.
  apply (overlay_without_uboot_raises
           (with_overlay "foo.img" (with_uboot_enable "no" plain_args))
           tree_world "no").
  - reflexivity.
  - reflexivity.
  - apply (bool_decide_eq_false_1 _). vm_compute. reflexivity.
Defined.

(* ===================================================================== *)
(** ** C3 and C6: the command line and the state of the object            *)
(* ===================================================================== *)

Lemma follows_elem_of a b l : follows a b l -> a ∈ l.
Proof. intros (l1 & l2 & ->). apply elem_of_app. right. left. Qed.

(** C3, at the options [--efi] with [uboot_enable = 'no']: the
    constructor takes the EFI branch and stores the firmware name, but
    [command_line] only asks whether U-Boot is enabled; it emits
    [-kernel] followed by the [None] the kernel attribute was
    initialised with, and no [-bios] at all. *)
Theorem efi_without_uboot_command_line :
  let a := with_flags false true false (with_uboot_enable "no" plain_args) in
  let r := QemuCommand.__init__ a tree_world in
  exists q toks,
    res r = inr q /\
    self.bios q = Some "OVMF.fd" /\
    res (QemuCommand.command_line q (after r)) = inr toks /\
    follows (PStr "-kernel") PNone toks /\
    (PStr "-bios" ∉ toks) /\
    ~ follows (PStr "-bios") (PStr "OVMF.fd") toks.
Proof.
  eexists _, _. split; [vm_compute; reflexivity|]. split; [reflexivity|].
  split; [vm_compute; reflexivity|].
  split; [apply followsb_follows; vm_compute; reflexivity|].
  assert (forall l : list pyval, bool_decide (PStr "-bios" ∈ l) = false ->
            (PStr "-bios" ∉ l) /\ ~ follows (PStr "-bios") (PStr "OVMF.fd") l) as Hno.
  { intros l Hl. apply bool_decide_eq_false_1 in Hl. split; [done|].
    intros Hf. apply Hl. eapply follows_elem_of, Hf. }
  apply Hno. vm_compute. reflexivity.
Qed.

(** The same options with U-Boot left enabled: there the EFI firmware
    does reach the command line. *)
Example efi_with_uboot_command_line :
  let a := with_flags false true false plain_args in
  let r := QemuCommand.__init__ a tree_world in
  exists q toks,
    res r = inr q /\
    res (QemuCommand.command_line q (after r)) = inr toks /\
    follows (PStr "-bios") (PStr "OVMF.fd") toks /\
    PStr "-kernel" ∉ toks.
Proof.
  eexists _, _. split; [vm_compute; reflexivity|].
  split; [vm_compute; reflexivity|].
  split; [apply followsb_follows; vm_compute; reflexivity|].
  apply (bool_decide_eq_false_1 _). vm_compute. reflexivity.
Qed.

(** C6, as the code has it: without the secondary network device the
    command line depends on the object alone; two calls, in whatever
    worlds, give the same result, and a call neither draws from the random
    generator nor prints nor changes anything else. *)
Theorem command_line_pure_without_secondary (q : self.t) (w1 w2 : World) :
  self.secondary_network q = false ->
  res (QemuCommand.command_line q w1) = res (QemuCommand.command_line q w2) /\
  after (QemuCommand.command_line q w1) = w1 /\
  log (QemuCommand.command_line q w1) = [].
Proof.
  intros Hsec. rewrite !command_line_eq, Hsec.
  by destruct (boot_tokens q).
Qed.

Lemma command_line_pure_without_secondary_witness :
  res (QemuCommand.command_line plain_object tree_world)
  = res (QemuCommand.command_line plain_object bare_world).
Proof.
  apply (command_line_pure_without_secondary plain_object tree_world bare_world).
  reflexivity.
Defined.

(** C6 fails with the secondary network device: the object built from
    [--secondary-network] gives two different command lines in two
    successive calls, which draw two different MAC addresses. *)
Lemma command_line_secondary_differs :
  ~ (forall a w q w' ev,
       QemuCommand.__init__ a w = mkRun (inr q) w' ev ->
       forall w1,
         res (QemuCommand.command_line q w1)
         = res (QemuCommand.command_line q (after (QemuCommand.command_line q w1)))).
Proof.
  intros H.
  pose (a := with_flags false false true plain_args).
  assert (exists q, res (QemuCommand.__init__ a tree_world) = inr q /\
                    res (QemuCommand.command_line q tree_world)
                    <> res (QemuCommand.command_line q
                              (after (QemuCommand.command_line q tree_world))))
    as (q & Hq & Hne).
  { eexists. split; [vm_compute; reflexivity|]. vm_compute. discriminate. }
  apply Hne. eapply H. apply run_of_res, Hq.
Qed.

(* ===================================================================== *)
(** ** What the constructor maintains                                     *)
(* ===================================================================== *)

(** The constructor changes the world in four ways only: it moves the
    random generator on, opens and closes sockets, assigns to the
    dictionary when U-Boot is disabled, and copies a file next to the
    overlay when that file is not there and the run is not dry.  It
    raises at its own [raise] statements, in [find_local_port], when it
    asks whether an overlay exists that is [None], and when a copy does
    not go through.  An invariant that
    survives these changes, an output property that holds of what is
    printed and copied, and a property of the exceptions that can be
    reached, hold of the whole constructor. *)
Section Constructor.
Variable I : World -> Prop.
Variable L : list event -> Prop.
Variable E : exn -> Prop.
Variable a : args.t.
Hypothesis L_nil : L [].
Hypothesis L_app : forall l1 l2, L l1 -> L l2 -> L (l1 ++ l2).
Hypothesis L_print : forall line, L [Stdout line].
Hypothesis I_random : forall w n, I w -> I (set_random_pos n w).
Hypothesis I_table :
  forall w, I w -> parse_uboot_enable a = false ->
            I (set_EXTENSIONS (<["qemux86-64" := "ext4"]> (EXTENSIONS w)) w).
Hypothesis copy_ok :
  forall src dst w,
    I w -> args.dry_run a = false -> fs_file w dst ∉ files w ->
    dst = fstr (args.overlay a) +:+ ".u-boot.rom" \/ dst = fstr (args.overlay a) +:+ ".img" ->
    I (set_files ({[fs_file w dst]} ∪ files w) w) /\ L [CopyFile src dst].
Hypothesis E_guard : truthy (args.overlay a) = true -> E OverlayNeedsUBoot.
Hypothesis E_machine :
  truthy (args.machine a) = false ->
  E (DirectoryMissing (args.dir a)) /\ E (MachineAmbiguous (args.dir a)).
Hypothesis E_port : E NoFreePort.
Hypothesis E_none : args.overlay a = None -> E ExistsOfNone.
Hypothesis E_missing :
  forall w p,
    I w -> fs_file w p ∉ files w ->
    args.dry_run a = false \/ truthy (args.overlay a) = true
    \/ (exists s, args.overlay a = Some s /\ fs_file w s ∈ files w) ->
    E (UBootImageMissing p) /\ E (OSImageMissing p).
Hypothesis E_copy :
  forall src dst,
    args.dry_run a = false -> truthy (args.overlay a) = true ->
    dst = fstr (args.overlay a) +:+ ".u-boot.rom" \/ dst = fstr (args.overlay a) +:+ ".img" ->
    E (CopyFailed src dst).

Lemma print_keeps line : keeps I L E (print line).
Proof. intros w Hw. split; [done|]. split; [apply L_print|done]. Qed.

Lemma exists_keeps p : keeps I L E (exists_ p).
Proof. by apply keeps_gets. Qed.

Lemma exists_opt_keeps : keeps I L E (exists_opt (args.overlay a)).
Proof.
  destruct (args.overlay a) eqn:Ho; [apply exists_keeps|].
  apply keeps_raise; auto.
Qed.

Lemma keep_copy_keeps src dst missing :
  truthy (args.overlay a) = true ->
  missing = UBootImageMissing \/ missing = OSImageMissing ->
  dst = fstr (args.overlay a) +:+ ".u-boot.rom" \/ dst = fstr (args.overlay a) +:+ ".img" ->
  keeps I L E (keep_copy a src dst missing).
Proof.
  intros Hov Hmiss Hdst w Hw. unfold keep_copy.
  destruct (args.overlay a) as [ov|] eqn:Ho; [|done].
  unfold bind, exists_opt, exists_, gets, raise, ret. simpl.
  case_bool_decide as Hovin; simpl; [done|].
  case_bool_decide as Hsrc; simpl.
  - case_bool_decide as Hin; simpl; [done|].
    destruct (args.dry_run a) eqn:Hdry; simpl.
    + split; [done|]. split; [apply L_print|done].
    + assert (I (set_files ({[fs_file w dst]} ∪ files w) w) /\ L [CopyFile src dst])
        as [HI HL] by (apply copy_ok; auto).
      assert (E (CopyFailed src dst)) as HE by (apply E_copy; auto).
      unfold copyfile. destruct (fs_copy w src dst); simpl;
        (split; [done|]); (split; [done|]); try done; by intros e [= <-].
  - do 2 (split; [done|]). intros e [= <-].
    destruct (E_missing w src) as [H1 H2]; auto.
    by destruct Hmiss as [-> | ->].
Qed.

Lemma recheck_keeps path missing :
  missing = UBootImageMissing \/ missing = OSImageMissing ->
  keeps I L E (recheck a path missing).
Proof.
  intros Hmiss w Hw. unfold recheck.
  unfold bind, exists_, gets, raise, ret. simpl.
  case_bool_decide as Hin; simpl; [done|].
  destruct (args.dry_run a) eqn:Hdry; simpl.
  - destruct (args.overlay a) as [ov|] eqn:Ho; simpl.
    + case_bool_decide as Hovin; simpl; [|done].
      do 2 (split; [done|]). intros e [= <-].
      destruct (E_missing w path) as [H1 H2]; eauto.
      by destruct Hmiss as [-> | ->].
    + do 2 (split; [done|]). intros e [= <-]. auto.
  - do 2 (split; [done|]). intros e [= <-].
    destruct (E_missing w path) as [H1 H2]; auto.
    by destruct Hmiss as [-> | ->].
Qed.

Lemma resolve_machine_keeps : keeps I L E (resolve_machine a).
Proof.
  unfold resolve_machine, autodetect_machine.
  apply keeps_if; intros Hm; [by apply keeps_ret|].
  destruct (E_machine Hm) as [Hd Ha].
  apply keeps_bind; [done|by apply keeps_gets|intros []]; simpl;
    [|by apply keeps_raise].
  apply keeps_bind; [done|by apply keeps_gets|intros [|m [|m' ms]]];
    (by apply keeps_raise) || by apply keeps_ret.
Qed.

Lemma resolve_boot_keeps e machine : keeps I L E (resolve_boot a e machine).
Proof.
  unfold resolve_boot, resolve_uboot.
  apply keeps_if; intros _; [by apply keeps_ret|].
  apply keeps_if; intros _.
  - apply keeps_bind; [done| |intros ?; by apply keeps_ret].
    apply keeps_bind; [done|by apply keeps_gets|intros src].
    apply keeps_bind; [done| |intros p].
    + apply keeps_if; intros Hov; [|by apply keeps_ret].
      apply keeps_bind; [done| |intros ?; by apply keeps_ret].
      apply keep_copy_keeps; auto.
    + apply keeps_bind; [done|apply recheck_keeps; auto|intros ?; by apply keeps_ret].
  - apply keeps_bind; [done|by apply keeps_gets|intros ?; by apply keeps_ret].
Qed.

Lemma resolve_image_keeps machine : keeps I L E (resolve_image a machine).
Proof.
  unfold resolve_image.
  apply keeps_bind; [done|by apply keeps_gets|intros image].
  apply keeps_bind; [done| |intros p].
  - apply keeps_if; intros Hov; [|by apply keeps_gets].
    apply keeps_bind; [done| |intros ?; by apply keeps_ret].
    apply keep_copy_keeps; auto.
  - apply keeps_bind; [done|apply recheck_keeps; auto|intros ?; by apply keeps_ret].
Qed.

Lemma random_mac_keeps : keeps I L E random_mac.
Proof.
  intros w Hw. rewrite random_mac_run. simpl. split; [by apply I_random|done].
Qed.

(** A window of valid port numbers, as the two the constructor asks for. *)
Lemma find_local_port_keeps p :
  0 <= p -> p + 9 <= 65535 -> keeps I L E (find_local_port p).
Proof.
  intros Hlow Hhigh w Hw. unfold find_local_port.
  rewrite find_local_port_loop_after. split; [done|].
  assert (forall x, x ∈ range p (p + 10) -> valid_port x = true) as Hvalid.
  { intros x Hx. apply (window_valid p (p + 10 - p)); [done|lia|done]. }
  induction (range p (p + 10)) as [|port ports IH]; [by split; [|intros e [= <-]]|].
  assert (valid_port port = true) as Hv by (apply Hvalid; left).
  destruct (can_bind w port) eqn:Hb.
  - by rewrite probe_bound.
  - rewrite probe_skipped by done. simpl.
    destruct IH as [IH1 IH2]; [intros x Hx; apply Hvalid; by right|].
    split; [|done]. apply (L_app [skipping port]); [apply L_print|done].
Qed.

Lemma resolve_kvm_keeps : keeps I L E (resolve_kvm a).
Proof. unfold resolve_kvm. destruct (args.kvm a); [by apply keeps_ret|by apply keeps_gets]. Qed.

Lemma select_drive_keeps : keeps I L E (select_drive (parse_uboot_enable a)).
Proof.
  unfold select_drive. destruct (parse_uboot_enable a) eqn:Hp; simpl;
    [by apply keeps_ret|].
  intros w Hw. split; [|done]. simpl. by apply I_table.
Qed.

(** Everything after the overlay guard and the drive selection. *)
Local Ltac rest_keeps :=
  apply keeps_bind; [done|apply resolve_machine_keeps|intros machine];
  apply keeps_bind; [done|apply resolve_boot_keeps|intros boot];
  apply keeps_bind; [done|apply resolve_image_keeps|intros image];
  apply keeps_bind;
    [done|apply keeps_if; intros _; [by apply keeps_ret|apply random_mac_keeps]
    |intros mac];
  apply keeps_bind; [done|apply find_local_port_keeps; lia|intros serial];
  apply keeps_bind; [done|apply find_local_port_keeps; lia|intros ssh];
  apply keeps_bind; [done|apply resolve_kvm_keeps|intros kvm];
  by apply keeps_ret.

Lemma init_keeps : keeps I L E (QemuCommand.__init__ a).
Proof.
  unfold QemuCommand.__init__.
  apply keeps_bind; [done| |intros _].
  { unfold check_overlay. apply keeps_if; intros Hg; [|by apply keeps_ret].
    apply keeps_raise; [done|]. apply E_guard. by apply andb_true_iff in Hg as [_ ?]. }
  apply keeps_bind; [done|apply select_drive_keeps|intros drive].
  rest_keeps.
Qed.

(** With U-Boot disabled and no overlay the assignment to the dictionary
    is carried out: an invariant it establishes holds afterwards. *)
Lemma init_establishes :
  (forall w, I (set_EXTENSIONS (<["qemux86-64" := "ext4"]> (EXTENSIONS w)) w)) ->
  parse_uboot_enable a = false ->
  truthy (args.overlay a) = false ->
  forall w, I (after (QemuCommand.__init__ a w)).
Proof.
  intros Hset He Hov w. unfold QemuCommand.__init__, check_overlay.
  rewrite He, Hov. simpl negb. simpl andb. cbv iota.
  rewrite (bind_quiet (ret tt) _ w tt eq_refl).
  unfold select_drive. simpl negb. cbv iota.
  match goal with
  | |- I (after (bind ?m ?k w)) =>
      rewrite (bind_step m k w "virtio"%string
                 (set_EXTENSIONS (<["qemux86-64" := "ext4"]> (EXTENSIONS w)) w) []
                 eq_refl)
  end.
  simpl after.
  match goal with
  | |- I (after (?k ?w1)) => assert (keeps I L E k) as Hk; [|by apply Hk]
  end.
  rest_keeps.
Qed.

End Constructor.

(** The constructor does not change where paths lead. *)
Lemma init_fs_file a w : fs_file (after (QemuCommand.__init__ a w)) = fs_file w.
Proof.
  assert (keeps (fun w0 => fs_file w0 = fs_file w) (fun _ => True) (fun _ => True)
                (QemuCommand.__init__ a)) as Hk.
  { by apply init_keeps. }
  by destruct (Hk w eq_refl) as (Hi & _).
Qed.

(* ===================================================================== *)
(** ** The stages of a construction that returns                          *)
(* ===================================================================== *)

(** Running a sequence whose first step is a primitive. *)
Lemma bind_ret {A B} (x : A) (k : A -> M B) w : bind (ret x) k w = k x w.
Proof. by apply bind_quiet. Qed.

Lemma bind_gets {A B} (f : World -> A) (k : A -> M B) w :
  bind (gets f) k w = k (f w) w.
Proof. by apply bind_quiet. Qed.

Lemma bind_raise_now {A B} e (k : A -> M B) w :
  bind (raise e) k w = mkRun (inl e) w [].
Proof. by apply bind_raise. Qed.

Lemma bind_print {B} line (k : unit -> M B) w :
  bind (print line) k w = emit [Stdout line] (k tt w).
Proof. reflexivity. Qed.

Lemma bind_copyfile {B} src dst (k : unit -> M B) w :
  bind (copyfile src dst) k w
  = match fs_copy w src dst with
    | Copied =>
        emit [CopyFile src dst] (k tt (set_files ({[fs_file w dst]} ∪ files w) w))
    | CopyRefused => mkRun (inl (CopyFailed src dst)) w []
    | CopyBroken =>
        mkRun (inl (CopyFailed src dst)) (set_files ({[fs_file w dst]} ∪ files w) w) []
    end.
Proof. unfold bind, copyfile. by destruct (fs_copy w src dst). Qed.

Lemma bind_assoc {A B C} (m : M A) (k1 : A -> M B) (k2 : B -> M C) w :
  bind (bind m k1) k2 w = bind m (fun x => bind (k1 x) k2) w.
Proof.
  unfold bind. destruct (m w) as [[e|x] w1 l1]; simpl; [done|].
  destruct (k1 x w1) as [[e|y] w2 l2]; simpl; [done|].
  by rewrite app_assoc.
Qed.

Lemma bind_if {A B} (b : bool) (m1 m2 : M A) (k : A -> M B) w :
  bind (if b then m1 else m2) k w = if b then bind m1 k w else bind m2 k w.
Proof. by destruct b. Qed.

Lemma emit_run {A} l (r : exn + A) w l' : emit l (mkRun r w l') = mkRun r w (l ++ l').
Proof. reflexivity. Qed.

Local Ltac run_stage :=
  unfold resolve_boot, resolve_uboot, resolve_image, keep_copy, recheck, exists_opt,
    exists_;
  repeat first
    [ rewrite bind_assoc | rewrite bind_ret | rewrite bind_gets
    | rewrite bind_raise_now | rewrite bind_print | rewrite bind_copyfile
    | rewrite bind_if ].

Local Ltac run_cases :=
  repeat (first [case_bool_decide | case_match]; simpl negb; cbv iota; run_stage);
  unfold ret, raise, emit; simpl.

(** Without an overlay the disk image is resolved without touching the
    world. *)
Lemma resolve_image_plain a m w img w' ev :
  truthy (args.overlay a) = false ->
  resolve_image a m w = mkRun (inr img) w' ev ->
  img = fs_realpath w (base_image w a m) /\ w' = w /\ ev = [].
Proof.
  intros Hov. run_stage. rewrite Hov. run_stage.
  run_cases; by intros [= <- <- <-].
Qed.

(** With an overlay the disk image is the copy next to the overlay, made
    by this construction or left alone because the overlay or the copy
    is there already, or because the run is dry. *)
Lemma resolve_image_overlay a ov m w img w' ev :
  args.overlay a = Some ov -> ov <> "" ->
  resolve_image a m w = mkRun (inr img) w' ev ->
  img = ov +:+ ".img" /\
  ((w' = w /\ copies ev = [] /\
    ((fs_file w ov ∈ files w) \/ (fs_file w (ov +:+ ".img") ∈ files w)
     \/ args.dry_run a = true)) \/
   (w' = set_files ({[fs_file w (ov +:+ ".img")]} ∪ files w) w /\
    ev = [CopyFile (base_image w a m) (ov +:+ ".img")] /\
    args.dry_run a = false /\ (fs_file w ov ∉ files w) /\
    (fs_file w (ov +:+ ".img") ∉ files w) /\
    (fs_file w (base_image w a m) ∈ files w))).
Proof.
  intros Ho Hne. run_stage. unfold truthy. rewrite Ho.
  rewrite bool_decide_eq_false_2 by done. simpl negb. cbv iota. simpl fstr. run_stage.
  destruct (args.dry_run a) eqn:Hdry;
  run_cases; intros [= <- <- <-]; (split; [done|]); auto 10; set_solver.
Qed.

(** Without an overlay the firmware or kernel is resolved without
    touching the world. *)
Lemma resolve_boot_plain a e m w b w' ev :
  truthy (args.overlay a) = false ->
  resolve_boot a e m w = mkRun (inr b) w' ev ->
  w' = w /\ ev = [] /\
  b = (if args.efi a then (Some "OVMF.fd", None)
       else if e then (Some (uboot_source w a m), None)
       else (None, Some (fs_abspath w (join (args.dir a) [m; "bzImage-qemux86-64.bin"])))).
Proof.
  intros Hov. run_stage. rewrite Hov. run_stage.
  destruct (args.efi a), e; run_cases; by intros [= <- <- <-].
Qed.

(** With an overlay (hence with U-Boot enabled) the world changes only
    when the U-Boot image is copied next to the overlay. *)
Lemma resolve_boot_overlay a ov m w b w' ev :
  args.overlay a = Some ov -> ov <> "" ->
  resolve_boot a true m w = mkRun (inr b) w' ev ->
  (w' = w /\ copies ev = [] /\
   (args.efi a = true \/ (fs_file w ov ∈ files w)
    \/ (fs_file w (ov +:+ ".u-boot.rom") ∈ files w)
    \/ args.dry_run a = true)) \/
  (w' = set_files ({[fs_file w (ov +:+ ".u-boot.rom")]} ∪ files w) w /\
   ev = [CopyFile (uboot_source w a m) (ov +:+ ".u-boot.rom")] /\
   b = (Some (ov +:+ ".u-boot.rom"), None) /\
   args.efi a = false /\ args.dry_run a = false /\ (fs_file w ov ∉ files w) /\
   (fs_file w (ov +:+ ".u-boot.rom") ∉ files w) /\
   (fs_file w (uboot_source w a m) ∈ files w)).
Proof.
  intros Ho Hne. run_stage. unfold truthy. rewrite Ho.
  rewrite bool_decide_eq_false_2 by done. simpl negb. cbv iota. simpl fstr. run_stage.
  destruct (args.efi a) eqn:Hefi; [unfold ret; intros [= <- <- <-]; auto 10|].
  destruct (args.dry_run a) eqn:Hdry;
  run_cases; intros [= <- <- <-]; auto 10; set_solver.
Qed.

(** The machine is resolved without touching the world. *)
Lemma resolve_machine_run a w r w' ev :
  resolve_machine a w = mkRun r w' ev -> w' = w /\ ev = [].
Proof.
  unfold resolve_machine, autodetect_machine. run_stage.
  run_cases; by intros [= <- <- <-].
Qed.

(** A construction that returns went through every stage; the object
    holds what the stages returned. *)
Lemma init_inr a w q w' ev :
  QemuCommand.__init__ a w = mkRun (inr q) w' ev ->
  let e := parse_uboot_enable a in
  let w1 := if e then w
            else set_EXTENSIONS (<["qemux86-64" := "ext4"]> (EXTENSIONS w)) w in
  exists w2 ev2 w3 ev3 ev4,
    negb e && truthy (args.overlay a) = false /\
    resolve_machine a w1 = mkRun (inr (self.machine q)) w1 [] /\
    resolve_boot a e (self.machine q) w1
      = mkRun (inr (self.bios q, self.kernel q)) w2 ev2 /\
    resolve_image a (self.machine q) w2 = mkRun (inr (self.image q)) w3 ev3 /\
    ev = ev2 ++ ev3 ++ ev4 /\ copies ev4 = [] /\
    self.enable_u_boot q = e /\
    self.drive_interface q = (if e then "ide" else "virtio") /\
    self.overlay q = args.overlay a /\
    self.secondary_network q = args.secondary_network a /\
    files w' = files w3.
Proof.
  intros H e w1. unfold QemuCommand.__init__ in H. fold e in H.
  apply bind_inr in H as ([] & wa & eva & evb & Hguard & H & ->).
  assert (negb e && truthy (args.overlay a) = false /\ wa = w /\ eva = [])
    as (Hg & -> & ->).
  { unfold check_overlay in Hguard.
    destruct (negb e && truthy (args.overlay a)); [done|].
    by injection Hguard as <- <-. }
  apply bind_inr in H as (drive & wb & evc & evd & Hdrive & H & ->).
  assert (drive = (if e then "ide" else "virtio") /\ wb = w1 /\ evc = [])
    as (-> & -> & ->).
  { unfold select_drive in Hdrive. subst w1. destruct e; simpl in Hdrive.
    - by injection Hdrive as <- <-.
    - by injection Hdrive as <- <- <-. }
  apply bind_inr in H as (machine & wc & eve & evf & Hmachine & H & ->).
  assert (wc = w1 /\ eve = []) as (-> & ->).
  { by apply resolve_machine_run in Hmachine. }
  apply bind_inr in H as ([bios kernel] & w2 & ev2 & evg & Hboot & H & ->).
  apply bind_inr in H as (image & w3 & ev3 & evh & Himage & H & ->).
  apply bind_inr in H as (mac & w4 & ev5 & evi & Hmac & H & ->).
  assert (ev5 = []) as ->.
  { destruct (truthy (args.mac a)); [by injection Hmac as <- <-|].
    rewrite random_mac_run in Hmac. by injection Hmac as <- <-. }
  apply bind_inr in H as (serial & w5 & ev6 & evj & Hserial & H & ->).
  apply bind_inr in H as (ssh & w6 & ev7 & evk & Hssh & H & ->).
  apply bind_inr in H as (kvm & w7 & ev8 & evl & Hkvm & H & ->).
  assert (ev8 = []) as ->.
  { unfold resolve_kvm in Hkvm. destruct (args.kvm a); by injection Hkvm as <- <-. }
  assert (files w7 = files w3) as Hfiles.
  { assert (files w4 = files w3) as <-.
    { destruct (truthy (args.mac a)); [by injection Hmac as _ <-|].
      rewrite random_mac_run in Hmac. by injection Hmac as _ <-. }
    pose proof (find_local_port_loop_after (range 8990 (8990 + 10)) w4) as H5.
    pose proof (find_local_port_loop_after (range 2222 (2222 + 10)) w5) as H6.
    unfold find_local_port in Hserial, Hssh. rewrite Hserial in H5.
    rewrite Hssh in H6. simpl in H5, H6. subst w5 w6.
    unfold resolve_kvm in Hkvm. destruct (args.kvm a); by injection Hkvm as _ <-. }
  injection H as <- <- <-. simpl.
  exists w2, ev2, w3, ev3, (ev6 ++ ev7).
  repeat split; try done.
  { by rewrite app_nil_r. }
  unfold copies. rewrite omap_app.
  pose proof (find_local_port_loop_copies (range 8990 (8990 + 10)) w4) as H6.
  pose proof (find_local_port_loop_copies (range 2222 (2222 + 10)) w5) as H7.
  unfold find_local_port in Hserial, Hssh. rewrite Hserial in H6. rewrite Hssh in H7.
  simpl in H6, H7. unfold copies in H6, H7. by rewrite H6, H7.
Qed.

(* ===================================================================== *)
(** ** C2 and C7: the extension of a synthesized image name               *)
(* ===================================================================== *)

Lemma append_inj_l (s t1 t2 : string) : s +:+ t1 = s +:+ t2 -> t1 = t2.
Proof. induction s as [|c s IH]; simpl; [done|]. intros [= H]. by apply IH. Qed.

Lemma copy_in_copies src dst (l : list event) :
  CopyFile src dst ∈ l -> (src, dst) ∈ copies l.
Proof. intros H. apply list_elem_of_omap. by exists (CopyFile src dst). Qed.

(** The name the constructor makes up for the disk image when the image
    name is no existing path, with the extension the dictionary holds
    once the drive selection is through. *)
Lemma init_base_image a w q w' ev :
  QemuCommand.__init__ a w = mkRun (inr q) w' ev ->
  fs_file w (args.imagename a) ∉ files w ->
  let m := self.machine q in
  let w1 := if parse_uboot_enable a then w
            else set_EXTENSIONS (<["qemux86-64" := "ext4"]> (EXTENSIONS w)) w in
  let base :=
    join (args.dir a) [m; args.imagename a +:+ "-" +:+ m +:+ "." +:+ extension w1 m] in
  (truthy (args.overlay a) = false -> self.image q = fs_realpath w base) /\
  (forall ov,
     args.overlay a = Some ov -> ov <> "" ->
     fs_file w (args.imagename a) <> fs_file w (ov +:+ ".u-boot.rom") ->
     self.image q = ov +:+ ".img" /\
     forall src, CopyFile src (ov +:+ ".img") ∈ ev -> src = base).
Proof.
  intros H Hname m w1 base.
  apply init_inr in H
    as (w2 & ev2 & w3 & ev3 & ev4 & Hg & _ & Hboot & Himage & -> & Hev4 & _).
  fold w1 in Hboot. fold m in Hboot, Himage.
  assert (files w1 = files w /\ fs_realpath w1 = fs_realpath w /\ fs_file w1 = fs_file w)
    as (Hf1 & Hr1 & Hi1).
  { subst w1. by destruct (parse_uboot_enable a). }
  split.
  - intros Hov.
    apply resolve_boot_plain in Hboot as (-> & -> & _); [|done].
    apply resolve_image_plain in Himage as (-> & _ & _); [|done].
    rewrite Hr1. f_equal. unfold base_image.
    rewrite bool_decide_eq_false_2; [done|by rewrite Hi1, Hf1].
  - intros ov Ho Hne Hrom.
    assert (parse_uboot_enable a = true) as He.
    { unfold truthy in Hg. rewrite Ho, bool_decide_eq_false_2 in Hg by done.
      by destruct (parse_uboot_enable a). }
    rewrite He in Hboot.
    pose proof (resolve_boot_overlay _ _ _ _ _ _ _ Ho Hne Hboot) as Hb.
    pose proof (resolve_image_overlay _ _ _ _ _ _ _ Ho Hne Himage) as [Himg Hi].
    assert (base_image w2 a m = base) as Hbase.
    { assert ((fs_file w2 (args.imagename a) ∉ files w2) /\
              EXTENSIONS w2 = EXTENSIONS w1) as [Hin He2].
      { destruct Hb as [(Hw2 & _)|(Hw2 & _)]; rewrite Hw2; simpl;
          (split; [|done]);
          rewrite ?not_elem_of_union, ?not_elem_of_singleton, Hi1, Hf1; auto. }
      unfold base_image. rewrite bool_decide_eq_false_2 by done.
      unfold base, extension. by rewrite He2. }
    split; [done|]. intros src Hsrc.
    apply elem_of_app in Hsrc as [Hsrc|Hsrc].
    { destruct Hb as [(_ & Hc & _)|(_ & Hev2 & _)].
      - apply copy_in_copies in Hsrc. rewrite Hc in Hsrc. by apply elem_of_nil in Hsrc.
      - rewrite Hev2 in Hsrc. apply list_elem_of_singleton in Hsrc.
        injection Hsrc as _ Hsrc. by apply append_inj_l in Hsrc. }
    apply elem_of_app in Hsrc as [Hsrc|Hsrc].
    + destruct Hi as [(_ & Hc & _)|(_ & Hev3 & _)].
      * apply copy_in_copies in Hsrc. rewrite Hc in Hsrc. by apply elem_of_nil in Hsrc.
      * rewrite Hev3 in Hsrc. apply list_elem_of_singleton in Hsrc.
        injection Hsrc as Hsrc. by rewrite Hsrc.
    + apply copy_in_copies in Hsrc. rewrite Hev4 in Hsrc. by apply elem_of_nil in Hsrc.
Qed.

(** With the dictionary as the module defines it, the extension that is
    looked up is the one the specification tabulates. *)
Lemma extension_initial w (e : bool) m :
  EXTENSIONS w = EXTENSIONS_init ->
  extension (if e then w
             else set_EXTENSIONS (<["qemux86-64" := "ext4"]> (EXTENSIONS w)) w) m
  = spec_extension e m.
Proof.
  intros Hw. unfold extension, spec_extension, EXTENSIONS_init in *.
  destruct e; simpl; rewrite Hw, !lookup_insert;
    repeat case_decide; repeat case_bool_decide; simplify_eq; done.
Qed.

(** C2, as the code has it: in a process whose dictionary is still as the
    module defines it, a construction that returns, with an image name
    that is no existing path, makes up the image name
    [join(dir, machine, imagename-machine.ext)], where [ext] is [wic]
    for [intel-corei7-64], [ota-ext4] for [qemux86-64] ([ext4] when
    U-Boot is disabled) and [wic] for every other machine.  Without an
    overlay [self.image] is its [realpath]; with an overlay [self.image]
    is the copy next to the overlay, and the made-up name is the source
    of that copy if the construction makes it (the image name not
    leading to the file of the U-Boot copy, which this very construction
    may create before it looks for the image). *)
Theorem synthesized_image_path (a : args.t) (w : World) q w' ev :
  QemuCommand.__init__ a w = mkRun (inr q) w' ev ->
  fs_file w (args.imagename a) ∉ files w ->
  EXTENSIONS w = EXTENSIONS_init ->
  let m := self.machine q in
  let base :=
    join (args.dir a)
         [m; args.imagename a +:+ "-" +:+ m +:+ "."
             +:+ spec_extension (self.enable_u_boot q) m] in
  (truthy (args.overlay a) = false -> self.image q = fs_realpath w base) /\
  (forall ov,
     args.overlay a = Some ov -> ov <> "" ->
     fs_file w (args.imagename a) <> fs_file w (ov +:+ ".u-boot.rom") ->
     self.image q = ov +:+ ".img" /\
     forall src, CopyFile src (ov +:+ ".img") ∈ ev -> src = base).
Proof.
  intros H Hname Htable m base.
  pose proof (init_base_image _ _ _ _ _ H Hname) as Hbase.
  apply init_inr in H as (_ & _ & _ & _ & _ & _ & _ & _ & _ & _ & _ & He & _).
  simpl in Hbase. rewrite extension_initial in Hbase by done.
  subst base m. by rewrite He.
Qed.

Lemma synthesized_image_path_witness :
  self.image plain_object
  = fs_realpath tree_world "img/qemux86-64/core-qemux86-64.ota-ext4" /\
  forall src,
    CopyFile src "foo.img.img"
    ∈ log (QemuCommand.__init__ (with_overlay "foo.img" plain_args) tree_world) ->
    src = "img/qemux86-64/core-qemux86-64.ota-ext4".
Proof.
  assert (fs_file tree_world "core" ∉ files tree_world) as Hname.
  { apply (bool_decide_eq_false_1 _). vm_compute. reflexivity. }
  split.
  - apply (synthesized_image_path plain_args tree_world plain_object
             (after (QemuCommand.__init__ plain_args tree_world))
             (log (QemuCommand.__init__ plain_args tree_world))).
    + apply run_of_res. vm_compute. reflexivity.
    + exact Hname.
    + reflexivity.
    + reflexivity.
  - assert (exists q,
              res (QemuCommand.__init__ (with_overlay "foo.img" plain_args) tree_world)
              = inr q /\
              self.machine q = "qemux86-64" /\ self.enable_u_boot q = true)
      as (q & Hq & Hm & He).
    { eexists. split; [vm_compute; reflexivity|]. split; reflexivity. }
    destruct (proj2 (synthesized_image_path (with_overlay "foo.img" plain_args)
                       tree_world q _ _ (run_of_res _ _ Hq) Hname eq_refl)
                "foo.img" eq_refl ltac:(discriminate) ltac:(discriminate))
      as [_ Hsrc].
    rewrite Hm, He in Hsrc. exact Hsrc.
Defined.

(** C2 fails in a process that has constructed with U-Boot disabled
    before: the next construction for [qemux86-64], with U-Boot enabled,
    makes up a name that ends in [ext4]. *)
Lemma synthesized_image_path_after_disable :
  ~ (forall w0 w a q w' ev,
       EXTENSIONS w0 = EXTENSIONS_init -> later w0 w ->
       QemuCommand.__init__ a w = mkRun (inr q) w' ev ->
       fs_file w (args.imagename a) ∉ files w ->
       truthy (args.overlay a) = false ->
       self.image q
       = fs_realpath w
           (join (args.dir a)
              [self.machine q;
               args.imagename a +:+ "-" +:+ self.machine q +:+ "."
               +:+ spec_extension (self.enable_u_boot q) (self.machine q)])).
Proof.
  intros H.
  pose (w := after (QemuCommand.__init__ (with_uboot_enable "no" plain_args) tree_world)).
  assert (exists q, res (QemuCommand.__init__ plain_args w) = inr q /\
                    self.enable_u_boot q = true /\
                    self.machine q = "qemux86-64" /\
                    self.image q = "img/qemux86-64/core-qemux86-64.ext4")
    as (q & Hq & He & Hm & Hi).
  { eexists. split; [vm_compute; reflexivity|]. done. }
  specialize (H tree_world w plain_args q _ _ eq_refl
                (later_construct _ _ _ (later_now _)) (run_of_res _ _ Hq)).
  rewrite He, Hm, Hi in H.
  assert ("img/qemux86-64/core-qemux86-64.ext4"
          = "img/qemux86-64/core-qemux86-64.ota-ext4") as Habs; [|done].
  apply H; [|done].
  apply (bool_decide_eq_false_1 _). vm_compute. reflexivity.
Qed.

(** Nothing but a construction with U-Boot disabled writes to the
    dictionary, and it writes the same entry again. *)
Lemma later_table w w' :
  later w w' ->
  EXTENSIONS w !! "qemux86-64" = Some "ext4" ->
  EXTENSIONS w' !! "qemux86-64" = Some "ext4".
Proof.
  induction 1 as [w|a w w' _ IH|q w w' _ IH|w w1 w' Hsame _ IH]; intros Hw.
  - done.
  - apply IH.
    apply (init_keeps (fun w => EXTENSIONS w !! "qemux86-64" = Some "ext4")
             (fun _ => True) (fun _ => True) a); try done.
    intros w0 _ _. simpl. apply lookup_insert_eq.
  - apply IH. rewrite command_line_eq.
    destruct (boot_tokens q); [done|]. by destruct (self.secondary_network q).
  - apply IH. by rewrite Hsame.
Qed.

(** C7: once a construction with U-Boot disabled has got past the
    overlay guard, the dictionary of the process maps [qemux86-64] to
    [ext4], and keeps doing so whatever is constructed later; every
    later construction for [qemux86-64] that makes up an image name,
    U-Boot enabled or not, makes it up with [ext4].  (A construction
    makes up a name when the image name does not exist as a path; with an
    overlay it looks after the U-Boot copy is made, so that the image
    name must not lead to the file of that copy either.) *)
Theorem disabled_uboot_leaks (a : args.t) (w w2 : World) :
  parse_uboot_enable a = false ->
  truthy (args.overlay a) = false ->
  later (after (QemuCommand.__init__ a w)) w2 ->
  extension w2 "qemux86-64" = "ext4" /\
  forall a2 q w3 ev,
    QemuCommand.__init__ a2 w2 = mkRun (inr q) w3 ev ->
    self.machine q = "qemux86-64" ->
    fs_file w2 (args.imagename a2) ∉ files w2 ->
    let base :=
      join (args.dir a2) ["qemux86-64"; args.imagename a2 +:+ "-qemux86-64.ext4"] in
    (truthy (args.overlay a2) = false -> self.image q = fs_realpath w2 base) /\
    (forall ov,
       args.overlay a2 = Some ov -> ov <> "" ->
       fs_file w2 (args.imagename a2) <> fs_file w2 (ov +:+ ".u-boot.rom") ->
       self.image q = ov +:+ ".img" /\
       forall src, CopyFile src (ov +:+ ".img") ∈ ev -> src = base).
Proof.
  intros He Hov Hlater.
  assert (EXTENSIONS w2 !! "qemux86-64" = Some "ext4") as Htable.
  { apply (later_table _ _ Hlater).
    apply (init_establishes (fun w => EXTENSIONS w !! "qemux86-64" = Some "ext4")
             (fun _ => True) (fun _ => True) a); try done;
      intros; simpl; apply lookup_insert_eq. }
  split; [unfold extension; by rewrite Htable|].
  intros a2 q w3 ev H Hm Hname base.
  pose proof (init_base_image _ _ _ _ _ H Hname) as Hbase. simpl in Hbase.
  rewrite Hm in Hbase.
  assert (extension
            (if parse_uboot_enable a2 then w2
             else set_EXTENSIONS (<["qemux86-64" := "ext4"]> (EXTENSIONS w2)) w2)
            "qemux86-64" = "ext4") as Hext.
  { unfold extension. destruct (parse_uboot_enable a2); simpl.
    - by rewrite Htable.
    - by rewrite lookup_insert_eq. }
  rewrite Hext in Hbase. exact Hbase.
Qed.

Lemma disabled_uboot_leaks_witness :
  let w2 := after (QemuCommand.__init__ (with_uboot_enable "no" plain_args) tree_world) in
  extension w2 "qemux86-64" = "ext4" /\
  exists q,
    res (QemuCommand.__init__ plain_args w2) = inr q /\
    self.enable_u_boot q = true /\
    self.image q = fs_realpath w2 "img/qemux86-64/core-qemux86-64.ext4".
Proof.
  intros w2.
  destruct (disabled_uboot_leaks (with_uboot_enable "no" plain_args) tree_world w2)
    as [Hext Hlater].
  - vm_compute. reflexivity.
  - reflexivity.
  - apply later_now.
  - split; [exact Hext|].
    assert (exists q, res (QemuCommand.__init__ plain_args w2) = inr q /\
                      self.enable_u_boot q = true /\
                      self.machine q = "qemux86-64") as (q & Hq & He & Hm).
    { eexists. split; [vm_compute; reflexivity|]. split; reflexivity. }
    assert (fs_file w2 "core" ∉ files w2) as Hname.
    { apply (bool_decide_eq_false_1 _). vm_compute. reflexivity. }
    exists q. split; [exact Hq|]. split; [exact He|].
    exact (proj1 (Hlater plain_args q _ _ (run_of_res _ _ Hq) Hm Hname) eq_refl).
Defined.

(* ===================================================================== *)
(** ** C4 and C5: the copies next to the overlay                          *)
(* ===================================================================== *)

Lemma copies_app l1 l2 : copies (l1 ++ l2) = copies l1 ++ copies l2.
Proof. apply omap_app. Qed.

(** The machine selection, all cases. *)
Lemma resolve_machine_eq a w :
  resolve_machine a w
  = mkRun (if truthy (args.machine a) then inr (fstr (args.machine a))
           else if negb (fs_isdir w (args.dir a))
                then inl (DirectoryMissing (args.dir a))
                else match fs_listdir w (args.dir a) with
                     | [m] => inr m
                     | _ => inl (MachineAmbiguous (args.dir a))
                     end) w [].
Proof.
  unfold resolve_machine, autodetect_machine.
  destruct (truthy (args.machine a)); [done|]. run_stage.
  destruct (fs_isdir w (args.dir a)); simpl; [|done]. run_stage.
  by destruct (fs_listdir w (args.dir a)) as [|m [|m' ms]].
Qed.

(** With an overlay that does not exist yet, the firmware stage and the
    image stage only return when the file they would copy exists, dry run
    or not. *)
Lemma resolve_boot_needs_source a ov m w b w' ev :
  args.overlay a = Some ov -> ov <> "" -> args.efi a = false ->
  fs_file w ov ∉ files w ->
  resolve_boot a true m w = mkRun (inr b) w' ev ->
  fs_file w (uboot_source w a m) ∈ files w.
Proof.
  intros Ho Hne Hefi Hov. run_stage. unfold truthy.
  rewrite Ho, Hefi. rewrite bool_decide_eq_false_2 by done.
  simpl negb. cbv iota. simpl fstr. run_stage.
  rewrite (bool_decide_eq_false_2 _ Hov). simpl negb. cbv iota. run_stage.
  case_bool_decide as Hsrc; [done|]. simpl negb. cbv iota. run_stage.
  unfold raise. by intros [=].
Qed.

Lemma resolve_image_needs_source a ov m w img w' ev :
  args.overlay a = Some ov -> ov <> "" ->
  fs_file w ov ∉ files w ->
  resolve_image a m w = mkRun (inr img) w' ev ->
  fs_file w (base_image w a m) ∈ files w.
Proof.
  intros Ho Hne Hov. run_stage. unfold truthy.
  rewrite Ho. rewrite bool_decide_eq_false_2 by done.
  simpl negb. cbv iota. simpl fstr. run_stage.
  rewrite (bool_decide_eq_false_2 _ Hov). simpl negb. cbv iota. run_stage.
  case_bool_decide as Hsrc; [done|]. simpl negb. cbv iota. run_stage.
  unfold raise. by intros [=].
Qed.

(** Without the U-Boot image the firmware stage raises at once. *)
Lemma resolve_boot_raises_missing a ov m w :
  args.overlay a = Some ov -> ov <> "" -> args.efi a = false ->
  fs_file w ov ∉ files w ->
  fs_file w (uboot_source w a m) ∉ files w ->
  resolve_boot a true m w
  = mkRun (inl (UBootImageMissing (uboot_source w a m))) w [].
Proof.
  intros Ho Hne Hefi Hov Hsrc. run_stage. unfold truthy.
  rewrite Ho, Hefi. rewrite bool_decide_eq_false_2 by done.
  simpl negb. cbv iota. simpl fstr. run_stage.
  rewrite (bool_decide_eq_false_2 _ Hov). simpl negb. cbv iota. run_stage.
  rewrite (bool_decide_eq_false_2 _ Hsrc). simpl negb. cbv iota. run_stage.
  reflexivity.
Qed.

(** An exception of the firmware stage is the outcome of the
    construction. *)
Lemma init_boot_raises a w m e w2 ev2 :
  negb (parse_uboot_enable a) && truthy (args.overlay a) = false ->
  let w1 := if parse_uboot_enable a then w
            else set_EXTENSIONS (<["qemux86-64" := "ext4"]> (EXTENSIONS w)) w in
  resolve_machine a w1 = mkRun (inr m) w1 [] ->
  resolve_boot a (parse_uboot_enable a) m w1 = mkRun (inl e) w2 ev2 ->
  QemuCommand.__init__ a w = mkRun (inl e) w2 ev2.
Proof.
  intros Hg w1 Hm Hb. unfold QemuCommand.__init__, check_overlay.
  rewrite Hg, bind_ret.
  assert (select_drive (parse_uboot_enable a) w
          = mkRun (inr (if parse_uboot_enable a then "ide" else "virtio")) w1 [])
    as Hd.
  { subst w1. unfold select_drive. by destruct (parse_uboot_enable a). }
  rewrite (bind_silent _ _ _ _ _ Hd), (bind_silent _ _ _ _ _ Hm).
  by rewrite (bind_raise _ _ _ _ _ _ Hb).
Qed.

(** C4, as the code has it: a dry run never copies a file and leaves the
    existing files as they are, whatever exists.  When no overlay is
    requested (an overlay option that is the empty string, leading to no
    existing file) it raises none of the constructor's errors about a
    missing artifact.  When an overlay is requested that does not exist
    yet, the files that would be copied are still asked for: the
    construction only returns if the disk image exists and, without EFI,
    the U-Boot image exists; with the machine given and U-Boot in use, a
    missing U-Boot image makes it raise the error about that image
    before anything is printed. *)
Theorem dry_run_copies_nothing (a : args.t) (w : World) :
  args.dry_run a = true ->
  let r := QemuCommand.__init__ a w in
  copies (log r) = [] /\
  files (after r) = files w /\
  (truthy (args.overlay a) = false ->
   (forall s, args.overlay a = Some s -> fs_file w s ∉ files w) ->
   forall e, res r = inl e -> spec_class e <> Some MissingArtifactError) /\
  (forall ov,
     args.overlay a = Some ov -> ov <> "" -> fs_file w ov ∉ files w ->
     (forall q,
        res r = inr q ->
        (fs_file w (base_image w a (self.machine q)) ∈ files w) /\
        (args.efi a = false ->
         fs_file w (uboot_source w a (self.machine q)) ∈ files w)) /\
     (forall m,
        args.machine a = Some m -> m <> "" ->
        parse_uboot_enable a = true -> args.efi a = false ->
        fs_file w (uboot_source w a m) ∉ files w ->
        r = mkRun (inl (UBootImageMissing (uboot_source w a m))) w [] /\
        spec_class (UBootImageMissing (uboot_source w a m))
        = Some MissingArtifactError)).
Proof.
  intros Hdry r. subst r.
  assert (keeps (fun w' => files w' = files w /\ fs_file w' = fs_file w)
                (fun l => copies l = [])
                (fun _ => True) (QemuCommand.__init__ a)) as Hquiet.
  { apply init_keeps; try done.
    - intros l1 l2 H1 H2. by rewrite copies_app, H1, H2.
    - intros src dst w0 _ Hno. by rewrite Hdry in Hno. }
  destruct (Hquiet w (conj eq_refl eq_refl)) as ([Hfiles _] & Hcopies & _).
  do 2 (split; [done|]). split.
  - intros Hov Hnone.
    assert (keeps (fun w' => files w' = files w /\ fs_file w' = fs_file w)
                  (fun _ => True)
                  (fun e => spec_class e <> Some MissingArtifactError)
                  (QemuCommand.__init__ a)) as Herr.
    { apply init_keeps; try done.
      - intros src dst w0 _ Hno. by rewrite Hdry in Hno.
      - intros w0 p [Hw0 Hi0] _ [Hno|[Hyes|(s & Hs & Hin)]].
        + by rewrite Hdry in Hno.
        + by rewrite Hov in Hyes.
        + rewrite Hw0, Hi0 in Hin. by destruct (Hnone s Hs). }
    by destruct (Herr w (conj eq_refl eq_refl)) as (_ & _ & He).
  - intros ov Ho Hne Hov. split.
    + intros q Hq. apply run_of_res in Hq.
      apply init_inr in Hq as (w2 & ev2 & w3 & ev3 & ev4 & Hg & _ & Hboot & Himage & _).
      assert (parse_uboot_enable a = true) as Hpe.
      { unfold truthy in Hg. rewrite Ho, bool_decide_eq_false_2 in Hg by done.
        by destruct (parse_uboot_enable a). }
      rewrite Hpe in Hboot.
      assert (w2 = w) as ->.
      { pose proof (resolve_boot_overlay _ _ _ _ _ _ _ Ho Hne Hboot)
          as [(Hw2 & _)|(_ & _ & _ & _ & Hx & _)]; [done|congruence]. }
      split.
      * by apply (resolve_image_needs_source _ _ _ _ _ _ _ Ho Hne Hov Himage).
      * intros Hefi.
        by apply (resolve_boot_needs_source _ _ _ _ _ _ _ Ho Hne Hefi Hov Hboot).
    + intros m Hm Hmne Hpe Hefi Hsrc. split; [|done].
      apply (init_boot_raises a w m).
      * rewrite Hpe. reflexivity.
      * rewrite Hpe, resolve_machine_eq. unfold truthy.
        by rewrite Hm, bool_decide_eq_false_2.
      * rewrite Hpe. by apply (resolve_boot_raises_missing _ ov).
Qed.

Lemma dry_run_copies_nothing_witness :
  let a := with_overlay "foo.img" (with_flags true false false plain_args) in
  (copies (log (QemuCommand.__init__ a tree_world)) = [] /\
   files (after (QemuCommand.__init__ a tree_world)) = files tree_world) /\
  QemuCommand.__init__ a bare_world
  = mkRun (inl (UBootImageMissing "/b/img/qemux86-64/u-boot-qemux86-64.rom"))
          bare_world [].
Proof.
  intros a. split.
  - destruct (dry_run_copies_nothing a tree_world eq_refl) as (H1 & H2 & _).
    split; [exact H1|exact H2].
  - destruct (dry_run_copies_nothing a bare_world eq_refl) as (_ & _ & _ & H).
    assert (forall p : string, bool_decide (p ∈ files bare_world) = false ->
                               p ∉ files bare_world) as Hno.
    { intros p. apply bool_decide_eq_false_1. }
    destruct (H "foo.img" eq_refl ltac:(discriminate)
                ltac:(apply Hno; vm_compute; reflexivity)) as [_ H5].
    exact (proj1 (H5 "qemux86-64" eq_refl ltac:(discriminate) eq_refl eq_refl
                    ltac:(apply Hno; vm_compute; reflexivity))).
Defined.

(** C4 fails with an overlay: in a dry run on an empty disk the
    constructor still insists on the U-Boot image it would copy, and
    raises the error about the missing artifact. *)
Lemma dry_run_overlay_needs_rom :
  ~ (forall a w,
       args.dry_run a = true -> files w = ∅ ->
       copies (log (QemuCommand.__init__ a w)) = [] /\
       forall e, res (QemuCommand.__init__ a w) = inl e ->
                 spec_class e <> Some MissingArtifactError).
Proof.
  intros H.
  destruct (H (with_overlay "foo.img" (with_flags true false false plain_args))
              bare_world eq_refl eq_refl) as [_ He].
  apply (He (UBootImageMissing "/b/img/qemux86-64/u-boot-qemux86-64.rom")).
  - vm_compute. reflexivity.
  - reflexivity.
Qed.

(** Without an overlay a dry run on an empty disk gets as far as asking
    whether the overlay exists: with the overlay option [None] that
    question raises a [TypeError], with the empty string it is answered
    and the construction returns.  With EFI a dry run for an overlay
    does without the U-Boot image: given the disk image alone it
    returns. *)
Example dry_run_without_overlay :
  res (QemuCommand.__init__ (with_flags true false false plain_args) bare_world)
  = inl ExistsOfNone /\
  (exists q,
     res (QemuCommand.__init__ (with_overlay "" (with_flags true false false plain_args))
                               bare_world) = inr q) /\
  exists q,
    res (QemuCommand.__init__ (with_overlay "foo.img" (with_flags true true false plain_args))
           (set_files {[ "img/qemux86-64/core-qemux86-64.ota-ext4" ]} tree_world))
    = inr q.
Proof. split; [|split; eexists]; vm_compute; reflexivity. Qed.

Lemma append_empty_r (s : string) : s +:+ "" = s.
Proof.
  induction s as [|c s IH]; [done|].
  change (String c (s +:+ "") = String c s). by rewrite IH.
Qed.

(** Once both copies are next to the overlay no construction for that
    overlay copies anything, whatever else the world looks like. *)
Lemma init_copies_nothing_again a ov w :
  args.overlay a = Some ov ->
  fs_file w (ov +:+ ".u-boot.rom") ∈ files w ->
  fs_file w (ov +:+ ".img") ∈ files w ->
  copies (log (QemuCommand.__init__ a w)) = [].
Proof.
  intros Ho Hrom Himg.
  assert (keeps (fun w' => fs_file w' = fs_file w /\
                           fs_file w (ov +:+ ".u-boot.rom") ∈ files w' /\
                           fs_file w (ov +:+ ".img") ∈ files w')
                (fun l => copies l = []) (fun _ => True)
                (QemuCommand.__init__ a)) as Hk.
  { apply init_keeps; try done.
    - intros l1 l2 H1 H2. by rewrite copies_app, H1, H2.
    - intros src dst w0 (Hi & H1 & H2) _ Hno Hdst. rewrite Ho in Hdst. simpl in Hdst.
      rewrite Hi in Hno. by destruct Hdst as [-> | ->]. }
  by destruct (Hk w (conj eq_refl (conj Hrom Himg))) as (_ & Hc & _).
Qed.

(** C5: for an overlay that does not exist yet and has no copies next to
    it (the overlay, its U-Boot copy and its image copy being different
    files), a construction with U-Boot (no EFI, no dry run) that returns
    has found the U-Boot image and the disk image and has copied exactly
    these two, in this order, to [<overlay>.u-boot.rom] and
    [<overlay>.img]; a second construction with the same options in the
    world the first one left, or in any world with the same files,
    copies nothing.  The disk image is looked
    for once the U-Boot copy is made; it is the one that would have been
    found before, unless the image name leads to the file of that
    copy. *)
Theorem overlay_copies_once (a : args.t) (w : World) (ov : string) q w1 ev1 :
  args.overlay a = Some ov -> ov <> "" ->
  args.dry_run a = false -> args.efi a = false ->
  fs_file w ov ∉ files w ->
  fs_file w (ov +:+ ".u-boot.rom") ∉ files w ->
  fs_file w (ov +:+ ".img") ∉ files w ->
  fs_file w ov <> fs_file w (ov +:+ ".u-boot.rom") ->
  fs_file w (ov +:+ ".img") <> fs_file w (ov +:+ ".u-boot.rom") ->
  QemuCommand.__init__ a w = mkRun (inr q) w1 ev1 ->
  let rom := uboot_source w a (self.machine q) in
  let w2 := set_files ({[fs_file w (ov +:+ ".u-boot.rom")]} ∪ files w) w in
  let base := base_image w2 a (self.machine q) in
  self.enable_u_boot q = true /\
  (fs_file w rom ∈ files w) /\
  (fs_file w base ∈ files w2) /\
  (fs_file w (args.imagename a) <> fs_file w (ov +:+ ".u-boot.rom") ->
   base = base_image w a (self.machine q)) /\
  copies ev1 = [(rom, ov +:+ ".u-boot.rom"); (base, ov +:+ ".img")] /\
  copies (log (QemuCommand.__init__ a w1)) = [] /\
  (forall w', fs_file w' = fs_file w1 -> files w' = files w1 ->
              copies (log (QemuCommand.__init__ a w')) = []).
Proof.
  intros Ho Hne Hdry Hefi Hov Hrom Himg Hd1 Hd2 H rom w2 base.
  pose proof H as Hrun.
  apply init_inr in H as (w2' & ev2 & w3 & ev3 & ev4 & Hg & _ & Hboot & Himage
                          & -> & Hev4 & He & _ & _ & _ & Hfiles).
  assert (parse_uboot_enable a = true) as Hpe.
  { unfold truthy in Hg. rewrite Ho, bool_decide_eq_false_2 in Hg by done.
    by destruct (parse_uboot_enable a). }
  rewrite Hpe in Hboot, He.
  pose proof (resolve_boot_overlay _ _ _ _ _ _ _ Ho Hne Hboot)
    as [(_ & _ & [Hx|[Hx|[Hx|Hx]]])|(Hw2 & Hev2 & _ & _ & _ & _ & _ & Hsrc)];
    [congruence|done|done|congruence|].
  fold w2 in Hw2. subst w2'.
  assert ((fs_file w2 ov ∉ files w2) /\ (fs_file w2 (ov +:+ ".img") ∉ files w2))
    as [Hov2 Himg2].
  { subst w2. simpl. rewrite !not_elem_of_union, !not_elem_of_singleton. done. }
  pose proof (resolve_image_overlay _ _ _ _ _ _ _ Ho Hne Himage)
    as [_ [(_ & _ & [Hx|[Hx|Hx]])|(Hw3 & Hev3 & _ & _ & _ & Hbase)]];
    [done|done|congruence|].
  fold base in Hbase, Hev3.
  split; [done|]. split; [done|]. split; [done|]. split; [|split].
  - intros Hname. subst base. unfold base_image.
    assert (bool_decide (fs_file w2 (args.imagename a) ∈ files w2)
            = bool_decide (fs_file w (args.imagename a) ∈ files w)) as ->; [|done].
    apply bool_decide_ext. subst w2. simpl.
    rewrite elem_of_union, elem_of_singleton. tauto.
  - rewrite Hev2, Hev3, !copies_app, Hev4. reflexivity.
  - assert (fs_file w1 = fs_file w) as Hi1.
    { pose proof (init_fs_file a w) as Hi. by rewrite Hrun in Hi. }
    assert (forall w', fs_file w' = fs_file w1 -> files w' = files w1 ->
                       copies (log (QemuCommand.__init__ a w')) = []) as Hagain.
    { intros w' Hi' Hf'.
      apply (init_copies_nothing_again a ov); [done| |];
        rewrite Hi', Hf', Hi1, Hfiles, Hw3; subst w2; simpl;
        rewrite !elem_of_union, !elem_of_singleton; auto. }
    split; [by apply Hagain|exact Hagain].
Qed.

Lemma overlay_copies_once_witness :
  let a := with_overlay "foo.img" plain_args in
  copies (log (QemuCommand.__init__ a tree_world))
  = [("/b/img/qemux86-64/u-boot-qemux86-64.rom", "foo.img.u-boot.rom");
     ("img/qemux86-64/core-qemux86-64.ota-ext4", "foo.img.img")] /\
  copies (log (QemuCommand.__init__ a (after (QemuCommand.__init__ a tree_world)))) = [].
Proof.
  intros a.
  assert (exists q, res (QemuCommand.__init__ a tree_world) = inr q /\
                    self.machine q = "qemux86-64") as (q & Hq & Hm).
  { eexists. split; [vm_compute; reflexivity|reflexivity]. }
  assert (forall p : string, bool_decide (p ∈ files tree_world) = false ->
                             p ∉ files tree_world) as Hno.
  { intros p. apply bool_decide_eq_false_1. }
  destruct (overlay_copies_once a tree_world "foo.img" q _ _ eq_refl
              ltac:(discriminate) eq_refl eq_refl
              ltac:(apply Hno; vm_compute; reflexivity)
              ltac:(apply Hno; vm_compute; reflexivity)
              ltac:(apply Hno; vm_compute; reflexivity)
              ltac:(discriminate) ltac:(discriminate)
              (run_of_res _ _ Hq)) as (_ & _ & _ & _ & H1 & H2 & _).
  rewrite Hm in H1. split; [exact H1|exact H2].
Defined.

(** Where the side conditions on the files come from: in a world where
    a leading [./] makes no difference to where a path leads, the image
    name [./foo.img.u-boot.rom] exists as soon as the U-Boot copy of the
    overlay [foo.img] is made, and that copy is taken for the disk
    image. *)
Example image_name_of_rom_copy :
  let a := with_imagename "./foo.img.u-boot.rom" (with_overlay "foo.img" plain_args) in
  (fs_file dotted_world (args.imagename a) ∉ files dotted_world) /\
  copies (log (QemuCommand.__init__ a dotted_world))
  = [("/b/img/qemux86-64/u-boot-qemux86-64.rom", "foo.img.u-boot.rom");
     ("./foo.img.u-boot.rom", "foo.img.img")].
Proof.
  split; [|vm_compute; reflexivity].
  apply (bool_decide_eq_false_1 _). vm_compute. reflexivity.
Qed.

(* ===================================================================== *)
(** ** C9 and C10: booting without U-Boot                                 *)
(* ===================================================================== *)

(** The command line of an object with U-Boot disabled: it is always
    produced, names the kernel attribute after [-kernel] and ends with
    the kernel arguments. *)
Lemma command_line_without_uboot q w :
  self.enable_u_boot q = false ->
  exists toks,
    res (QemuCommand.command_line q w) = inr toks /\
    follows (PStr "-kernel") (of_option (self.kernel q)) toks /\
    follows (PStr "-append")
            (PStr "root=/dev/vda rw highres=off console=ttyS0 ip=dhcp") toks /\
    (truthy (self.overlay q) = false ->
     follows (PStr "-drive")
             (PStr ("file=" +:+ self.image q +:+ ",if=" +:+ self.drive_interface q
                    +:+ ",format=raw,snapshot=on")) toks).
Proof.
  intros He. rewrite command_line_eq. unfold boot_tokens. rewrite He.
  assert (forall sec,
            let toks := assemble q [PStr "-kernel"; of_option (self.kernel q)] sec in
            follows (PStr "-kernel") (of_option (self.kernel q)) toks /\
            follows (PStr "-append")
              (PStr "root=/dev/vda rw highres=off console=ttyS0 ip=dhcp") toks /\
            (truthy (self.overlay q) = false ->
             follows (PStr "-drive")
               (PStr ("file=" +:+ self.image q +:+ ",if=" +:+ self.drive_interface q
                      +:+ ",format=raw,snapshot=on")) toks)) as Hasm.
  { intros sec toks. subst toks. unfold assemble. repeat split.
    - apply follows_app_r, follows_app_l, (follows_here _ _ [] []).
    - do 6 apply follows_app_r. unfold tail_tokens. rewrite He. simpl negb. cbv iota.
      do 3 apply follows_app_r. apply (follows_here _ _ [] []).
    - intros Hov. do 2 apply follows_app_r. apply follows_app_l.
      unfold drive_tokens. rewrite Hov. apply (follows_here _ _ [] []). }
  destruct (self.secondary_network q); eexists; (split; [reflexivity|apply Hasm]).
Qed.

(** C9: a construction with U-Boot disabled (and no EFI) that returns
    yields an object whose kernel is the conventional path under the
    images directory and whose drive interface is [virtio]; its command
    line, in any world, holds [-kernel] followed by that path, [-append]
    followed by the fixed kernel arguments, and the [-drive] attachment
    with [if=virtio]. *)
Theorem direct_kernel_command_line (a : args.t) (w : World) q w' ev :
  QemuCommand.__init__ a w = mkRun (inr q) w' ev ->
  parse_uboot_enable a = false ->
  args.efi a = false ->
  let kernel :=
    fs_abspath w (join (args.dir a) [self.machine q; "bzImage-qemux86-64.bin"]) in
  self.kernel q = Some kernel /\
  self.drive_interface q = "virtio" /\
  forall w2, exists toks,
    res (QemuCommand.command_line q w2) = inr toks /\
    follows (PStr "-kernel") (PStr kernel) toks /\
    follows (PStr "-append")
            (PStr "root=/dev/vda rw highres=off console=ttyS0 ip=dhcp") toks /\
    follows (PStr "-drive")
            (PStr ("file=" +:+ self.image q +:+ ",if=virtio,format=raw,snapshot=on"))
            toks.
Proof.
  intros H Hpe Hefi kernel.
  apply init_inr in H as (w2 & ev2 & w3 & ev3 & ev4 & Hg & _ & Hboot & _
                          & _ & _ & He & Hdrive & Hov & _).
  rewrite Hpe in Hg, Hboot, He, Hdrive. simpl in Hg.
  apply resolve_boot_plain in Hboot as (_ & _ & Hb); [|done].
  rewrite Hefi in Hb. simpl in Hb. injection Hb as _ Hk.
  split; [done|]. split; [done|]. intros w0.
  destruct (command_line_without_uboot q w0 He) as (toks & Hres & H1 & H2 & H3).
  exists toks. rewrite Hk in H1. rewrite Hdrive, Hov in H3. auto.
Qed.

Lemma direct_kernel_command_line_witness :
  let a := with_uboot_enable "no" plain_args in
  exists q toks,
    res (QemuCommand.__init__ a tree_world) = inr q /\
    res (QemuCommand.command_line q tree_world) = inr toks /\
    follows (PStr "-kernel") (PStr "/b/img/qemux86-64/bzImage-qemux86-64.bin") toks.
Proof.
  intros a.
  assert (exists q, res (QemuCommand.__init__ a tree_world) = inr q /\
                    self.machine q = "qemux86-64") as (q & Hq & Hm).
  { eexists. split; [vm_compute; reflexivity|reflexivity]. }
  destruct (direct_kernel_command_line a tree_world q _ _ (run_of_res _ _ Hq)
              eq_refl eq_refl) as (_ & _ & Hcmd).
  destruct (Hcmd tree_world) as (toks & Hres & Hk & _).
  exists q, toks. rewrite Hm in Hk. auto.
Defined.

(** C10: U-Boot counts as enabled exactly when the options carry no
    [uboot_enable] at all or carry one that reads [yes], [true] or [1]
    in lower case; this is what a construction stores, and with any
    other value the object gets the [virtio] drive interface and a
    command line with [-kernel] and [-append]. *)
Theorem uboot_enable_values (a : args.t) :
  (parse_uboot_enable a = true <->
   args.uboot_enable a = None \/
   exists v, args.uboot_enable a = Some v /\
             (lower v = "yes" \/ lower v = "true" \/ lower v = "1")) /\
  forall w q w' ev,
    QemuCommand.__init__ a w = mkRun (inr q) w' ev ->
    self.enable_u_boot q = parse_uboot_enable a /\
    (parse_uboot_enable a = false ->
     self.drive_interface q = "virtio" /\
     forall w2, exists toks,
       res (QemuCommand.command_line q w2) = inr toks /\
       follows (PStr "-kernel") (of_option (self.kernel q)) toks /\
       follows (PStr "-append")
               (PStr "root=/dev/vda rw highres=off console=ttyS0 ip=dhcp") toks).
Proof.
  split.
  - unfold parse_uboot_enable. destruct (args.uboot_enable a) as [v|]; [|by split; auto].
    rewrite bool_decide_eq_true, !elem_of_cons, elem_of_nil. split.
    + intros Hv. right. exists v. split; [done|]. tauto.
    + intros [Hv|(v' & [= <-] & Hv)]; [done|tauto].
  - intros w q w' ev H.
    apply init_inr in H as (w2 & ev2 & w3 & ev3 & ev4 & _ & _ & _ & _
                            & _ & _ & He & Hdrive & _).
    split; [done|]. intros Hpe. rewrite Hpe in He, Hdrive. split; [done|].
    intros w0.
    destruct (command_line_without_uboot q w0 He) as (toks & Hres & H1 & H2 & _).
    by exists toks.
Qed.

Lemma uboot_enable_values_witness :
  parse_uboot_enable (with_uboot_enable "on" plain_args) = false /\
  parse_uboot_enable (with_uboot_enable "enabled" plain_args) = false /\
  parse_uboot_enable (with_uboot_enable "Yes" plain_args) = true /\
  self.enable_u_boot plain_object = parse_uboot_enable plain_args.
Proof.
  split; [reflexivity|split; [reflexivity|split; [reflexivity|]]].
  apply (proj2 (uboot_enable_values plain_args) tree_world plain_object
           (after (QemuCommand.__init__ plain_args tree_world))
           (log (QemuCommand.__init__ plain_args tree_world))).
  apply run_of_res. vm_compute. reflexivity.
Defined.

Lemma find_local_port_window_witness :
  res (find_local_port 8990 crowded_world) = inl NoFreePort /\
  res (find_local_port 8990 tree_world) = inr 8991 /\
  res (find_local_port 65530 crowded_world) = inl (PortOutOfRange 65536) /\
  res (find_local_port (-1) tree_world) = inl (PortOutOfRange (-1)).
Proof.
  assert (0 <= 8990) as H0 by lia.
  assert (0 <= 65530) as H1 by lia.
  assert (-1 < 0) as H2 by lia.
  split; [|split; [|split]].
  - apply (proj1 (proj1 (find_local_port_window crowded_world 8990) H0)); [lia|].
    intros i Hi. reflexivity.
  - apply (proj2 (proj1 (find_local_port_window tree_world 8990) H0) 2).
    + lia.
    + intros i Hi. assert (i = 0) as -> by lia. reflexivity.
    + reflexivity.
  - apply (proj2 (proj1 (find_local_port_window crowded_world 65530) H1) 7).
    + lia.
    + intros i Hi. reflexivity.
    + reflexivity.
  - apply (proj2 (find_local_port_window tree_world (-1)) H2).
Defined.

(* ===================================================================== *)
(** ** Further properties of random_mac                                   *)
(* ===================================================================== *)

Lemma hex_choice (n : nat) :
  exists c, substring (n mod 16) 1 hex_digits = String c "" /\ is_hex c = true.
Proof.
  assert (forall k, (k < 16)%nat ->
            exists c, substring k 1 hex_digits = String c "" /\ is_hex c = true)
    as Hall.
  { intros k Hk.
    do 16 (destruct k as [|k]; [eexists; split; reflexivity|]). lia. }
  apply Hall, Nat.mod_upper_bound. lia.
Qed.

Lemma mac_drawn_eq w :
  let digit (k : nat) :=
    substring (random_source w (k + random_pos w) mod 16) 1 hex_digits in
  mac_drawn w
  = "ca:fe:" +:+ String.concat ":"
      [digit 0%nat +:+ digit 1%nat; digit 2%nat +:+ digit 3%nat;
       digit 4%nat +:+ digit 5%nat; digit 6%nat +:+ digit 7%nat].
Proof. reflexivity. Qed.

(** X1: [random_mac] always returns; the address is [ca:fe:] followed by
    four groups of two hexadecimal digits separated by colons, seventeen
    characters in all, and the call draws exactly eight digits and prints
    nothing. *)
Theorem random_mac_shape (w : World) :
  exists mac,
    random_mac w = mkRun (inr mac) (set_random_pos (8 + random_pos w) w) [] /\
    has_shape mac_shape mac = true /\
    String.length mac = 17%nat.
Proof.
  exists (mac_drawn w). split; [apply random_mac_run|].
  rewrite mac_drawn_eq. cbv zeta.
  destruct (hex_choice (random_source w (0 + random_pos w))) as (c0 & -> & H0).
  destruct (hex_choice (random_source w (1 + random_pos w))) as (c1 & -> & H1).
  destruct (hex_choice (random_source w (2 + random_pos w))) as (c2 & -> & H2).
  destruct (hex_choice (random_source w (3 + random_pos w))) as (c3 & -> & H3).
  destruct (hex_choice (random_source w (4 + random_pos w))) as (c4 & -> & H4).
  destruct (hex_choice (random_source w (5 + random_pos w))) as (c5 & -> & H5).
  destruct (hex_choice (random_source w (6 + random_pos w))) as (c6 & -> & H6).
  destruct (hex_choice (random_source w (7 + random_pos w))) as (c7 & -> & H7).
  split; [|reflexivity].
  cbv [String.append String.concat has_shape mac_shape].
  by rewrite H0, H1, H2, H3, H4, H5, H6, H7.
Qed.

(* ===================================================================== *)
(** ** Further properties of find_local_port                              *)
(* ===================================================================== *)

(** A prefix of a run of consecutive ports is the run of its length. *)
Lemma seqZ_split p n (busy : list Z) port rest :
  seqZ p n = busy ++ port :: rest ->
  busy = seqZ p (Z.of_nat (length busy)) /\ port = p + Z.of_nat (length busy) /\
  Z.of_nat (length busy) < n.
Proof.
  revert p n. induction busy as [|b busy IH]; intros p n Hs.
  - destruct (decide (0 < n)) as [Hn|Hn].
    + rewrite seqZ_cons in Hs by done. injection Hs as <- _.
      simpl. split; [done|]. split; lia.
    + rewrite seqZ_nil in Hs by lia. done.
  - destruct (decide (0 < n)) as [Hn|Hn].
    + rewrite seqZ_cons in Hs by done. injection Hs as <- Hs.
      apply IH in Hs as (Hb & -> & Hlt).
      rewrite length_cons, Nat2Z.inj_succ.
      rewrite (seqZ_cons p) by lia. rewrite Z.pred_succ.
      split; [by rewrite <- Hb|]. split; lia.
    + rewrite seqZ_nil in Hs by lia. done.
Qed.

(** X2: what [find_local_port] returns is a port of the window
    [p .. p+9] that could be bound, every port of the window before it
    is a valid port number that could not, and the lines printed are the
    [Skipping port] lines of these ports, in order.  What it raises is
    either its own exception, after all ten ports, valid port numbers
    all, failed and were each reported, or the [OverflowError] of [bind]
    for the first port of the window, no valid port number, after every
    port before it failed and was reported. *)
Theorem find_local_port_result (w : World) (p : Z) :
  (forall port,
     res (find_local_port p w) = inr port ->
     p <= port < p + 10 /\
     can_bind w port = true /\
     (forall x, p <= x < port -> valid_port x = true /\ can_bind w x = false) /\
     log (find_local_port p w) = skipping <$> seqZ p (port - p)) /\
  (forall e,
     res (find_local_port p w) = inl e ->
     (e = NoFreePort /\
      (forall x, p <= x < p + 10 -> valid_port x = true /\ can_bind w x = false) /\
      log (find_local_port p w) = skipping <$> seqZ p 10) \/
     (exists port,
        e = PortOutOfRange port /\
        p <= port < p + 10 /\
        valid_port port = false /\
        (forall x, p <= x < port -> valid_port x = true /\ can_bind w x = false) /\
        log (find_local_port p w) = skipping <$> seqZ p (port - p))).
Proof.
  unfold find_local_port, range. replace (p + 10 - p) with 10 by lia.
  destruct (find_local_port_loop_cases (seqZ p 10) w)
    as [(busy & port & rest & Hs & Hbusy & [[Hport ->]|[Hport ->]])|[Hall ->]]; simpl.
  - split; [|done]. intros ? [= <-].
    apply seqZ_split in Hs as (Hb & -> & Hlt).
    split; [lia|]. split; [done|]. split.
    + intros x Hx. apply Hbusy. rewrite Hb. apply elem_of_seqZ. lia.
    + f_equal. rewrite Hb at 1. f_equal. lia.
  - split; [done|]. intros ? [= <-]. right. exists port.
    apply seqZ_split in Hs as (Hb & -> & Hlt).
    split; [done|]. split; [lia|]. split; [done|]. split.
    + intros x Hx. apply Hbusy. rewrite Hb. apply elem_of_seqZ. lia.
    + f_equal. rewrite Hb at 1. f_equal. lia.
  - split; [done|]. intros ? [= <-]. left. split; [done|]. split; [|done].
    intros x Hx. apply Hall, elem_of_seqZ. lia.
Qed.

Lemma find_local_port_result_witness :
  8990 <= 8991 < 8990 + 10 /\
  log (find_local_port 8990 tree_world) = [skipping 8990].
Proof.
  destruct (proj1 (find_local_port_result tree_world 8990) 8991 eq_refl)
    as (H1 & _ & _ & H2).
  split; [exact H1|exact H2].
Defined.

(* ===================================================================== *)
(** ** Further properties of the constructor                              *)
(* ===================================================================== *)

Lemma set_files_id w : set_files (files w) w = w.
Proof. by destruct w. Qed.

(** The firmware and image stages change nothing but the set of files. *)
Lemma resolve_boot_frame a e m w :
  after (resolve_boot a e m w) = set_files (files (after (resolve_boot a e m w))) w.
Proof.
  run_stage. destruct (args.efi a), e, (truthy (args.overlay a)), (args.dry_run a);
    run_cases; by rewrite ?set_files_id.
Qed.

Lemma resolve_image_frame a m w :
  after (resolve_image a m w) = set_files (files (after (resolve_image a m w))) w.
Proof.
  run_stage. destruct (truthy (args.overlay a)), (args.dry_run a);
    run_cases; by rewrite ?set_files_id.
Qed.

(** The second half of a construction that returns: the address, the two
    ports and the options that are passed through. *)
Lemma init_inr_rest a w q w' ev :
  QemuCommand.__init__ a w = mkRun (inr q) w' ev ->
  let w1 := if parse_uboot_enable a then w
            else set_EXTENSIONS (<["qemux86-64" := "ext4"]> (EXTENSIONS w)) w in
  exists w3 ev3 evs evh,
    w3 = set_files (files w3) w1 /\
    w' = (if truthy (args.mac a) then w3
          else set_random_pos (8 + random_pos w3) w3) /\
    self.mac_address q
    = (if truthy (args.mac a) then fstr (args.mac a) else mac_drawn w3) /\
    find_local_port 8990 w' = mkRun (inr (self.serial_port q)) w' evs /\
    find_local_port 2222 w' = mkRun (inr (self.ssh_port q)) w' evh /\
    ev = ev3 ++ evs ++ evh /\
    (forall line, Stdout line ∈ ev3 -> args.dry_run a = true) /\
    self.mem q = (if truthy (args.mem a) then fstr (args.mem a) else "1G") /\
    self.kvm q = (match args.kvm a with Some k => k | None => kvm_ok w end) /\
    self.gui q = negb (args.no_gui a) /\
    self.gdb q = args.gdb a /\
    self.pcap q = args.pcap a /\
    self.host_fwd q = args.host_forward a /\
    self.dry_run q = args.dry_run a.
Proof.
  intros H w1. unfold QemuCommand.__init__ in H.
  apply bind_inr in H as ([] & wa & eva & evb & Hguard & H & ->).
  assert (wa = w /\ eva = []) as (-> & ->).
  { unfold check_overlay in Hguard.
    destruct (negb (parse_uboot_enable a) && truthy (args.overlay a)); [done|].
    by injection Hguard as <- <-. }
  apply bind_inr in H as (drive & wb & evc & evd & Hdrive & H & ->).
  assert (wb = w1 /\ evc = []) as (-> & ->).
  { unfold select_drive in Hdrive. subst w1.
    destruct (parse_uboot_enable a); simpl in Hdrive.
    - by injection Hdrive as _ <- <-.
    - by injection Hdrive as _ <- <-. }
  apply bind_inr in H as (machine & wc & eve & evf & Hmachine & H & ->).
  apply resolve_machine_run in Hmachine as (-> & ->).
  apply bind_inr in H as (boot & w2 & ev2 & evg & Hboot & H & ->).
  apply bind_inr in H as (image & w3 & ev3 & evh & Himage & H & ->).
  apply bind_inr in H as (mac & w4 & ev5 & evi & Hmac & H & ->).
  apply bind_inr in H as (serial & w5 & ev6 & evj & Hserial & H & ->).
  apply bind_inr in H as (ssh & w6 & ev7 & evk & Hssh & H & ->).
  apply bind_inr in H as (kvm & w7 & ev8 & evl & Hkvm & H & ->).
  injection H as <- <- <-. simpl.
  assert (w3 = set_files (files w3) w1) as Hw3.
  { pose proof (resolve_boot_frame a (parse_uboot_enable a) machine w1) as Hb.
    pose proof (resolve_image_frame a machine w2) as Hi.
    rewrite Hboot in Hb. rewrite Himage in Hi. simpl in Hb, Hi.
    rewrite Hi, Hb. reflexivity. }
  assert (w4 = (if truthy (args.mac a) then w3
                else set_random_pos (8 + random_pos w3) w3) /\
          mac = (if truthy (args.mac a) then fstr (args.mac a) else mac_drawn w3) /\
          ev5 = []) as (Hw4 & -> & ->).
  { destruct (truthy (args.mac a)); [by injection Hmac as <- <-|].
    rewrite random_mac_run in Hmac. by injection Hmac as <- <-. }
  assert (w5 = w4) as ->.
  { pose proof (find_local_port_loop_after (range 8990 (8990 + 10)) w4) as H5.
    unfold find_local_port in Hserial. by rewrite Hserial in H5. }
  assert (w6 = w4) as ->.
  { pose proof (find_local_port_loop_after (range 2222 (2222 + 10)) w4) as H6.
    unfold find_local_port in Hssh. by rewrite Hssh in H6. }
  assert (w7 = w4 /\ ev8 = [] /\
          kvm = match args.kvm a with Some k => k | None => kvm_ok w end)
    as (-> & -> & ->).
  { unfold resolve_kvm in Hkvm.
    destruct (args.kvm a); injection Hkvm as <- <- <-; [done|].
    repeat split. rewrite Hw4, Hw3. subst w1.
    by destruct (truthy (args.mac a)), (parse_uboot_enable a). }
  exists w3, (ev2 ++ ev3), ev6, ev7.
  split; [done|]. split; [done|]. split; [done|]. split; [done|]. split; [done|].
  split; [by rewrite !app_nil_r, <- !app_assoc|].
  split; [|done].
  intros line Hline. destruct (args.dry_run a) eqn:Hdry; [done|].
  exfalso. clear Hserial Hssh Hmac Hkvm Hw3 Hw4.
  apply elem_of_app in Hline as [Hline|Hline].
  - revert Hboot Hline. run_stage.
    destruct (args.efi a), (parse_uboot_enable a), (truthy (args.overlay a));
      run_cases; intros [= <- <- <-] Hl;
      repeat (apply elem_of_cons in Hl as [Hl|Hl]; [discriminate|]);
      by apply elem_of_nil in Hl.
  - revert Himage Hline. run_stage.
    destruct (truthy (args.overlay a));
      run_cases; intros [= <- <- <-] Hl;
      repeat (apply elem_of_cons in Hl as [Hl|Hl]; [discriminate|]);
      by apply elem_of_nil in Hl.
Qed.

(** What the firmware stage returns, and where it has looked. *)
Lemma resolve_boot_result a e m w b w' ev :
  resolve_boot a e m w = mkRun (inr b) w' ev ->
  b = (if args.efi a then (Some "OVMF.fd", None)
       else if e then
         (Some (if truthy (args.overlay a) then fstr (args.overlay a) +:+ ".u-boot.rom"
                else uboot_source w a m), None)
       else (None, Some (fs_abspath w (join (args.dir a) [m; "bzImage-qemux86-64.bin"]))))
  /\ (files w ⊆ files w')
  /\ (args.efi a = false -> e = true ->
      forall p, fst b = Some p ->
        (fs_file w p ∈ files w') \/
        (args.dry_run a = true /\
         forall s, args.overlay a = Some s -> fs_file w s ∉ files w)).
Proof.
  run_stage.
  destruct (args.efi a), e, (truthy (args.overlay a)) eqn:Hov, (args.dry_run a);
    run_cases; try (intros Habs; discriminate Habs);
    intros Heq; inversion Heq; subst; clear Heq; simpl;
    (split; [done|]); (split; [set_solver|]); try done;
    intros _ _ p [= <-]; try (left; set_solver); right; (split; [done|]);
    intros ? Hs; congruence.
Qed.

(** What the image stage returns, and where it has looked. *)
Lemma resolve_image_result a m w img w' ev :
  resolve_image a m w = mkRun (inr img) w' ev ->
  img = (if truthy (args.overlay a) then fstr (args.overlay a) +:+ ".img"
         else fs_realpath w (base_image w a m))
  /\ (files w ⊆ files w')
  /\ ((fs_file w img ∈ files w') \/
      (args.dry_run a = true /\
       forall s, args.overlay a = Some s -> fs_file w s ∉ files w)).
Proof.
  run_stage.
  destruct (truthy (args.overlay a)) eqn:Hov, (args.dry_run a);
    run_cases; try (intros Habs; discriminate Habs);
    intros Heq; inversion Heq; subst; clear Heq; simpl;
    (split; [done|]); (split; [set_solver|]);
    try (left; set_solver); right; (split; [done|]);
    intros ? Hs; congruence.
Qed.

(** The world the stages after the drive selection start in. *)
Lemma init_prefix a w :
  negb (parse_uboot_enable a) && truthy (args.overlay a) = false ->
  let w1 := if parse_uboot_enable a then w
            else set_EXTENSIONS (<["qemux86-64" := "ext4"]> (EXTENSIONS w)) w in
  forall e,
    res (resolve_machine a w1) = inl e ->
    QemuCommand.__init__ a w = mkRun (inl e) w1 [].
Proof.
  intros Hg w1 e He. unfold QemuCommand.__init__, check_overlay.
  rewrite Hg, bind_ret.
  assert (select_drive (parse_uboot_enable a) w
          = mkRun (inr (if parse_uboot_enable a then "ide" else "virtio")) w1 [])
    as Hd.
  { subst w1. unfold select_drive. by destruct (parse_uboot_enable a). }
  rewrite (bind_step _ _ _ _ _ _ Hd).
  destruct (resolve_machine a w1) as [r wm evm] eqn:Hm. simpl in He. subst r.
  pose proof (resolve_machine_run _ _ _ _ _ Hm) as (-> & ->).
  by rewrite (bind_raise _ _ _ _ _ _ Hm).
Qed.

(** X3: the machine of a constructed object is the [machine] option when
    that is set, and otherwise the only entry of the images directory.
    Without the option (and past the overlay guard) a missing directory
    makes the constructor raise its directory error, and a directory that
    does not hold exactly one entry (none included) its autodetection
    error; on both the dictionary keeps the assignment a disabled U-Boot
    has made, and nothing was printed or copied. *)
Theorem machine_autodetection (a : args.t) (w : World) :
  let w1 := if parse_uboot_enable a then w
            else set_EXTENSIONS (<["qemux86-64" := "ext4"]> (EXTENSIONS w)) w in
  (forall q w' ev,
     QemuCommand.__init__ a w = mkRun (inr q) w' ev ->
     (truthy (args.machine a) = true -> args.machine a = Some (self.machine q)) /\
     (truthy (args.machine a) = false ->
      fs_isdir w (args.dir a) = true /\
      fs_listdir w (args.dir a) = [self.machine q])) /\
  (truthy (args.machine a) = false ->
   negb (parse_uboot_enable a) && truthy (args.overlay a) = false ->
   (fs_isdir w (args.dir a) = false ->
    QemuCommand.__init__ a w = mkRun (inl (DirectoryMissing (args.dir a))) w1 []) /\
   (fs_isdir w (args.dir a) = true ->
    (forall m, fs_listdir w (args.dir a) <> [m]) ->
    QemuCommand.__init__ a w = mkRun (inl (MachineAmbiguous (args.dir a))) w1 [])).
Proof.
  intros w1.
  assert (fs_isdir w1 = fs_isdir w /\ fs_listdir w1 = fs_listdir w) as [Hd Hl].
  { subst w1. by destruct (parse_uboot_enable a). }
  split.
  - intros q w' ev H.
    apply init_inr in H as (_ & _ & _ & _ & _ & _ & Hm & _). fold w1 in Hm.
    rewrite resolve_machine_eq, Hd, Hl in Hm. injection Hm as Hm.
    destruct (truthy (args.machine a)) eqn:Ht.
    + injection Hm as <-. split; [|done]. intros _.
      destruct (args.machine a); [done|discriminate].
    + split; [done|]. intros _.
      destruct (fs_isdir w (args.dir a)); [|done]. split; [done|].
      destruct (fs_listdir w (args.dir a)) as [|m [|m' ms]]; try done.
      by injection Hm as <-.
  - intros Hm Hg. split.
    + intros Hno. apply init_prefix; [done|]. fold w1.
      by rewrite resolve_machine_eq, Hm, Hd, Hno.
    + intros Hyes Hmany. apply init_prefix; [done|]. fold w1.
      rewrite resolve_machine_eq, Hm, Hd, Hl, Hyes. simpl.
      destruct (fs_listdir w (args.dir a)) as [|m [|m' ms]] eqn:Hls; try done.
      by destruct (Hmany m).
Qed.

Lemma machine_autodetection_witness :
  let a := {| args.dry_run := false; args.overlay := None; args.uboot_enable := None;
              args.machine := None; args.dir := "nowhere"; args.efi := false;
              args.bootloader := None; args.imagename := "core"; args.mac := None;
              args.mem := None; args.kvm := None; args.no_gui := true;
              args.gdb := false; args.pcap := None; args.secondary_network := false;
              args.host_forward := None |} in
  QemuCommand.__init__ a tree_world = mkRun (inl (DirectoryMissing "nowhere")) tree_world [].
Proof.
  intros a.
  apply (proj1 (proj2 (machine_autodetection a tree_world) eq_refl eq_refl)).
  reflexivity.
Defined.

(** X4: the serial port of a constructed object lies in [8990 .. 8999],
    the SSH port in [2222 .. 2231], so that the two differ; each could be
    bound in the world the constructor started in and is the first such
    port of its window. *)
Theorem constructed_ports (a : args.t) (w : World) q w' ev :
  QemuCommand.__init__ a w = mkRun (inr q) w' ev ->
  8990 <= self.serial_port q < 9000 /\
  2222 <= self.ssh_port q < 2232 /\
  self.serial_port q <> self.ssh_port q /\
  can_bind w (self.serial_port q) = true /\
  can_bind w (self.ssh_port q) = true /\
  (forall x, 8990 <= x < self.serial_port q -> can_bind w x = false) /\
  (forall x, 2222 <= x < self.ssh_port q -> can_bind w x = false).
Proof.
  intros H.
  apply init_inr_rest in H
    as (w3 & ev3 & evs & evh & Hw3 & Hw' & _ & Hserial & Hssh & _).
  assert (forall x, can_bind w' x = can_bind w x) as Hsame.
  { intros x. rewrite Hw', Hw3. unfold can_bind.
    by destruct (truthy (args.mac a)), (parse_uboot_enable a). }
  destruct (proj1 (find_local_port_result w' 8990) (self.serial_port q))
    as (H1 & H2 & H3 & _); [by rewrite Hserial|].
  destruct (proj1 (find_local_port_result w' 2222) (self.ssh_port q))
    as (H4 & H5 & H6 & _); [by rewrite Hssh|].
  rewrite Hsame in H2, H5.
  repeat split; try lia; try done.
  - intros x Hx. rewrite <- Hsame. by apply H3.
  - intros x Hx. rewrite <- Hsame. by apply H6.
Qed.

Lemma constructed_ports_witness :
  8990 <= self.serial_port plain_object < 9000 /\
  self.serial_port plain_object <> self.ssh_port plain_object.
Proof.
  destruct (constructed_ports plain_args tree_world plain_object _ _
              (run_of_res _ _ plain_construction)) as (H1 & _ & H2 & _).
  split; [exact H1|exact H2].
Defined.

(** X5: with the [mac] option set the constructed object carries it and
    the random generator is left alone; without it the address has the
    shape [ca:fe:XX:XX:XX:XX] and exactly eight digits were drawn. *)
Theorem constructed_mac_address (a : args.t) (w : World) q w' ev :
  QemuCommand.__init__ a w = mkRun (inr q) w' ev ->
  (truthy (args.mac a) = true ->
   args.mac a = Some (self.mac_address q) /\ random_pos w' = random_pos w) /\
  (truthy (args.mac a) = false ->
   has_shape mac_shape (self.mac_address q) = true /\
   random_pos w' = (8 + random_pos w)%nat).
Proof.
  intros H.
  apply init_inr_rest in H as (w3 & ev3 & evs & evh & Hw3 & Hw' & Hmac & _).
  assert (random_pos w3 = random_pos w) as Hpos.
  { rewrite Hw3. by destruct (parse_uboot_enable a). }
  destruct (truthy (args.mac a)) eqn:Ht; rewrite ?Ht in Hw', Hmac.
  - split; [|done]. intros _. rewrite Hw', Hpos. split; [|done].
    destruct (args.mac a); [by rewrite Hmac|discriminate].
  - split; [done|]. intros _. split.
    + rewrite Hmac.
      destruct (random_mac_shape w3) as (mac & Hrun & Hshape & _).
      rewrite random_mac_run in Hrun. injection Hrun as Heq. by rewrite Heq.
    + rewrite Hw'. cbn [random_pos set_random_pos]. by rewrite Hpos.
Qed.

Lemma constructed_mac_address_witness :
  has_shape mac_shape (self.mac_address plain_object) = true.
Proof.
  apply (proj2 (constructed_mac_address plain_args tree_world plain_object _ _
                  (run_of_res _ _ plain_construction)) eq_refl).
Defined.

(** X6: a constructed object has exactly one of [bios] and [kernel]
    set; with EFI the firmware is [OVMF.fd]; with U-Boot enabled [bios] is
    set, so that [command_line] never meets an unset attribute: on a
    constructed object it returns, in any world, a list that starts with
    the emulator binary. *)
Theorem constructed_boot_attributes (a : args.t) (w : World) q w' ev :
  QemuCommand.__init__ a w = mkRun (inr q) w' ev ->
  ((is_Some (self.bios q) /\ self.kernel q = None) \/
   (self.bios q = None /\ is_Some (self.kernel q))) /\
  (args.efi a = true -> self.bios q = Some "OVMF.fd") /\
  (self.enable_u_boot q = true -> is_Some (self.bios q)) /\
  forall w2, exists toks,
    res (QemuCommand.command_line q w2) = inr toks /\
    head toks = Some (PStr "qemu-system-x86_64").
Proof.
  intros H.
  apply init_inr in H as (w2 & ev2 & w3 & ev3 & ev4 & _ & _ & Hboot & _
                          & _ & _ & He & _).
  apply resolve_boot_result in Hboot as (Hb & _).
  assert (self.enable_u_boot q = true -> is_Some (self.bios q)) as Hbios.
  { intros Hen. rewrite Hen in He. rewrite <- He in Hb.
    destruct (args.efi a); injection Hb as -> _; by eexists. }
  split; [|split; [|split; [done|]]].
  - destruct (args.efi a), (parse_uboot_enable a); injection Hb as -> ->;
      (left; split; [by eexists|done]) || (right; split; [done|by eexists]).
  - intros Hefi. rewrite Hefi in Hb. by injection Hb as -> _.
  - intros w0. rewrite command_line_eq. unfold boot_tokens.
    destruct (self.enable_u_boot q).
    + destruct (Hbios eq_refl) as [b ->].
      destruct (self.secondary_network q); eexists; split; reflexivity.
    + destruct (self.secondary_network q); eexists; split; reflexivity.
Qed.

Lemma constructed_boot_attributes_witness :
  exists toks,
    res (QemuCommand.command_line plain_object bare_world) = inr toks /\
    head toks = Some (PStr "qemu-system-x86_64").
Proof.
  destruct (constructed_boot_attributes plain_args tree_world plain_object _ _
              (run_of_res _ _ plain_construction)) as (_ & _ & _ & H).
  exact (H bare_world).
Defined.

(** X7: when the run is not dry, or the overlay exists, a construction
    that returns leaves the disk image of the object in existence, and
    with U-Boot (no EFI) the firmware image as well. *)
Theorem constructed_artifacts_exist (a : args.t) (w : World) q w' ev :
  QemuCommand.__init__ a w = mkRun (inr q) w' ev ->
  args.dry_run a = false \/
  (exists s, args.overlay a = Some s /\ fs_file w s ∈ files w) ->
  (fs_file w' (self.image q) ∈ files w') /\
  (args.efi a = false -> self.enable_u_boot q = true ->
   exists p, self.bios q = Some p /\ fs_file w' p ∈ files w').
Proof.
  intros H Hcheck.
  assert (fs_file w' = fs_file w) as Hi'.
  { pose proof (init_fs_file a w) as Hi. by rewrite H in Hi. }
  rewrite Hi'.
  apply init_inr in H as (w2 & ev2 & w3 & ev3 & ev4 & _ & _ & Hboot & Himage
                          & _ & _ & He & _ & _ & _ & Hfiles).
  set (w1 := if parse_uboot_enable a then w
             else set_EXTENSIONS (<["qemux86-64" := "ext4"]> (EXTENSIONS w)) w) in *.
  assert (files w1 = files w /\ fs_file w1 = fs_file w) as [H01 Hi1].
  { subst w1. by destruct (parse_uboot_enable a). }
  assert (fs_file w2 = fs_file w) as Hi2.
  { pose proof (resolve_boot_frame a (parse_uboot_enable a) (self.machine q) w1) as Hfr.
    rewrite Hboot in Hfr. simpl in Hfr. by rewrite Hfr. }
  apply resolve_boot_result in Hboot as (Hb & H12 & Hbios).
  apply resolve_image_result in Himage as (_ & H23 & Himg).
  rewrite H01 in H12. rewrite Hi2 in Himg.
  split.
  - rewrite Hfiles. destruct Himg as [Himg|[Hdry Hno]]; [done|].
    destruct Hcheck as [Hc|(s & Hs & Hin)]; [congruence|].
    destruct (Hno s Hs). by apply H12.
  - intros Hefi Hen. rewrite Hen in He. rewrite <- He in Hbios, Hb.
    rewrite Hefi in Hb. simpl in Hb.
    destruct (self.bios q) as [p|] eqn:Hp; [|by injection Hb].
    exists p. split; [done|]. rewrite Hfiles.
    destruct (Hbios Hefi eq_refl p eq_refl) as [Hin|[Hdry Hno]].
    + rewrite Hi1 in Hin. by apply H23.
    + destruct Hcheck as [Hc|(s & Hs & Hin)]; [congruence|].
      destruct (Hno s Hs). by rewrite Hi1, H01.
Qed.

Lemma constructed_artifacts_exist_witness :
  fs_file (after (QemuCommand.__init__ plain_args tree_world)) (self.image plain_object)
  ∈ files (after (QemuCommand.__init__ plain_args tree_world)).
Proof.
  apply (constructed_artifacts_exist plain_args tree_world plain_object _ _
           (run_of_res _ _ plain_construction)).
  left. reflexivity.
Defined.

(** X8: an image name that is an existing path is taken as it is,
    whatever the machine and the dictionary: without an overlay
    [self.image] is its [realpath], resolved a second time; with an
    overlay it is the source of the copy next to the overlay. *)
Theorem existing_image_path (a : args.t) (w : World) q w' ev :
  QemuCommand.__init__ a w = mkRun (inr q) w' ev ->
  fs_file w (args.imagename a) ∈ files w ->
  let image := fs_realpath w (args.imagename a) in
  (truthy (args.overlay a) = false -> self.image q = fs_realpath w image) /\
  (forall ov,
     args.overlay a = Some ov -> ov <> "" ->
     self.image q = ov +:+ ".img" /\
     forall src, CopyFile src (ov +:+ ".img") ∈ ev -> src = image).
Proof.
  intros H Hname image.
  apply init_inr in H
    as (w2 & ev2 & w3 & ev3 & ev4 & Hg & _ & Hboot & Himage & -> & Hev4 & _).
  set (w1 := if parse_uboot_enable a then w
             else set_EXTENSIONS (<["qemux86-64" := "ext4"]> (EXTENSIONS w)) w) in *.
  assert (files w1 = files w /\ fs_realpath w1 = fs_realpath w /\ fs_file w1 = fs_file w)
    as (Hf1 & Hr1 & Hi1).
  { subst w1. by destruct (parse_uboot_enable a). }
  assert (base_image w2 a (self.machine q) = image) as Hbase.
  { pose proof (resolve_boot_frame a (parse_uboot_enable a) (self.machine q) w1) as Hfr.
    rewrite Hboot in Hfr. simpl in Hfr.
    apply resolve_boot_result in Hboot as (_ & H12 & _).
    unfold base_image. rewrite bool_decide_eq_true_2.
    - rewrite Hfr. simpl. by rewrite Hr1.
    - rewrite Hfr at 1. simpl. rewrite Hi1. apply H12. by rewrite Hf1. }
  split.
  - intros Hov.
    pose proof (resolve_boot_frame a (parse_uboot_enable a) (self.machine q) w1) as Hfr.
    rewrite Hboot in Hfr. simpl in Hfr.
    apply resolve_image_plain in Himage as (-> & _ & _); [|done].
    rewrite Hbase, Hfr. simpl. by rewrite Hr1.
  - intros ov Ho Hne.
    assert (parse_uboot_enable a = true) as He.
    { unfold truthy in Hg. rewrite Ho, bool_decide_eq_false_2 in Hg by done.
      by destruct (parse_uboot_enable a). }
    rewrite He in Hboot.
    pose proof (resolve_boot_overlay _ _ _ _ _ _ _ Ho Hne Hboot) as Hb.
    pose proof (resolve_image_overlay _ _ _ _ _ _ _ Ho Hne Himage) as [Himg Hi].
    split; [done|]. intros src Hsrc.
    apply elem_of_app in Hsrc as [Hsrc|Hsrc].
    { destruct Hb as [(_ & Hc & _)|(_ & Hev2 & _)].
      - apply copy_in_copies in Hsrc. rewrite Hc in Hsrc. by apply elem_of_nil in Hsrc.
      - rewrite Hev2 in Hsrc. apply list_elem_of_singleton in Hsrc.
        injection Hsrc as _ Hsrc. by apply append_inj_l in Hsrc. }
    apply elem_of_app in Hsrc as [Hsrc|Hsrc].
    + destruct Hi as [(_ & Hc & _)|(_ & Hev3 & _)].
      * apply copy_in_copies in Hsrc. rewrite Hc in Hsrc. by apply elem_of_nil in Hsrc.
      * rewrite Hev3 in Hsrc. apply list_elem_of_singleton in Hsrc.
        injection Hsrc as Hsrc. by rewrite Hsrc.
    + apply copy_in_copies in Hsrc. rewrite Hev4 in Hsrc. by apply elem_of_nil in Hsrc.
Qed.

(** X9: when the overlay exists already a construction that returns has
    copied nothing and left the files alone, and the copies next to the
    overlay that the object names (the U-Boot copy unless EFI is used)
    exist, dry run or not. *)
Theorem existing_overlay_reused (a : args.t) (w : World) (ov : string) q w' ev :
  QemuCommand.__init__ a w = mkRun (inr q) w' ev ->
  args.overlay a = Some ov -> ov <> "" ->
  fs_file w ov ∈ files w ->
  copies ev = [] /\
  files w' = files w /\
  self.image q = ov +:+ ".img" /\
  (fs_file w (ov +:+ ".img") ∈ files w) /\
  (args.efi a = false ->
   self.bios q = Some (ov +:+ ".u-boot.rom") /\
   (fs_file w (ov +:+ ".u-boot.rom") ∈ files w)).
Proof.
  intros H Ho Hne Hin.
  apply init_inr in H
    as (w2 & ev2 & w3 & ev3 & ev4 & Hg & _ & Hboot & Himage & -> & Hev4 & _
        & _ & _ & _ & Hfiles).
  assert (parse_uboot_enable a = true) as He.
  { unfold truthy in Hg. rewrite Ho, bool_decide_eq_false_2 in Hg by done.
    by destruct (parse_uboot_enable a). }
  rewrite He in Hboot.
  assert (truthy (args.overlay a) = true) as Ht.
  { unfold truthy. by rewrite Ho, bool_decide_eq_false_2. }
  pose proof (resolve_boot_overlay _ _ _ _ _ _ _ Ho Hne Hboot)
    as [(-> & Hc2 & _)|(_ & _ & _ & _ & _ & Hno & _)]; [|done].
  pose proof (resolve_image_overlay _ _ _ _ _ _ _ Ho Hne Himage)
    as [Himg [(-> & Hc3 & _)|(_ & _ & _ & Hno & _)]]; [|done].
  apply resolve_boot_result in Hboot as (Hb & _ & Hbios).
  apply resolve_image_result in Himage as (_ & _ & Hi).
  split; [by rewrite !copies_app, Hc2, Hc3, Hev4|].
  split; [done|]. split; [done|]. split.
  - destruct Hi as [Hi|[_ Hi]]; [by rewrite Himg in Hi|by destruct (Hi ov Ho)].
  - intros Hefi. rewrite Hefi, Ht, Ho in Hb. simpl in Hb. injection Hb as Hb _.
    split; [done|].
    destruct (Hbios Hefi eq_refl _ Hb) as [Hp|[_ Hp]]; [done|by destruct (Hp ov Ho)].
Qed.

(** X10: for an object constructed with an overlay [img_command_line]
    is [qemu-img create -o backing_file=<overlay>.img -f qcow2 <overlay>];
    for one constructed with the overlay option [None] its last token is
    that [None]. *)
Theorem constructed_img_command_line (a : args.t) (w : World) q w' ev :
  QemuCommand.__init__ a w = mkRun (inr q) w' ev ->
  (forall ov,
     args.overlay a = Some ov -> ov <> "" ->
     QemuCommand.img_command_line q
     = [PStr "qemu-img"; PStr "create"; PStr "-o";
        PStr ("backing_file=" +:+ ov +:+ ".img"); PStr "-f"; PStr "qcow2"; PStr ov]) /\
  (args.overlay a = None ->
   last (QemuCommand.img_command_line q) = Some PNone /\
   PStr ("backing_file=" +:+ self.image q) ∈ QemuCommand.img_command_line q).
Proof.
  intros H.
  apply init_inr in H
    as (w2 & ev2 & w3 & ev3 & ev4 & _ & _ & _ & Himage & _ & _ & _ & _ & Hov & _).
  unfold QemuCommand.img_command_line. rewrite Hov. split.
  - intros ov Ho Hne.
    apply (resolve_image_overlay _ ov) in Himage as [-> _]; [|done|done].
    by rewrite Ho.
  - intros ->. split; [done|]. do 3 right. left.
Qed.

(** Without an overlay the firmware and image stages leave the world
    alone and print nothing, whether they return or raise. *)
Lemma resolve_boot_plain_any a e m w :
  truthy (args.overlay a) = false ->
  after (resolve_boot a e m w) = w /\ log (resolve_boot a e m w) = [].
Proof.
  intros Hov. run_stage. rewrite Hov. run_stage.
  destruct (args.efi a), e; run_cases; done.
Qed.

Lemma resolve_image_plain_any a m w :
  truthy (args.overlay a) = false ->
  after (resolve_image a m w) = w /\ log (resolve_image a m w) = [].
Proof.
  intros Hov. run_stage. rewrite Hov. run_stage. run_cases; done.
Qed.

Lemma init_plain_keeps (I : World -> Prop) (L : list event -> Prop) a :
  L [] ->
  (forall l1 l2, L l1 -> L l2 -> L (l1 ++ l2)) ->
  (forall line, L [Stdout line]) ->
  (forall w n, I w -> I (set_random_pos n w)) ->
  (forall w, I w -> parse_uboot_enable a = false ->
             I (set_EXTENSIONS (<["qemux86-64" := "ext4"]> (EXTENSIONS w)) w)) ->
  truthy (args.overlay a) = false ->
  keeps I L (fun _ => True) (QemuCommand.__init__ a).
Proof.
  intros Hnil Happ Hprint Hrandom Htable Hov. unfold QemuCommand.__init__.
  apply keeps_bind; [done| |intros _].
  { unfold check_overlay. apply keeps_if; intros _;
      [by apply keeps_raise|by apply keeps_ret]. }
  apply keeps_bind; [done|by apply select_drive_keeps|intros drive].
  apply keeps_bind; [done|by apply resolve_machine_keeps|intros machine].
  apply keeps_bind; [done| |intros boot].
  { intros w1 Hw1.
    destruct (resolve_boot_plain_any a (parse_uboot_enable a) machine w1 Hov)
      as [-> ->]. done. }
  apply keeps_bind; [done| |intros image].
  { intros w1 Hw1.
    destruct (resolve_image_plain_any a machine w1 Hov) as [-> ->]. done. }
  apply keeps_bind;
    [done|apply keeps_if; intros _; [by apply keeps_ret|by apply random_mac_keeps]
    |intros mac].
  apply keeps_bind; [done|by apply find_local_port_keeps|intros serial].
  apply keeps_bind; [done|by apply find_local_port_keeps|intros ssh].
  apply keeps_bind; [done|by apply resolve_kvm_keeps|intros kvm].
  by apply keeps_ret.
Qed.

(** X11: whatever the constructor does, returning or raising, the
    dictionary afterwards is the one before or the one before with
    [qemux86-64] set to [ext4]; with U-Boot enabled it is the one before;
    the extension of every other machine is never changed. *)
Theorem constructor_table_frame (a : args.t) (w : World) :
  let w' := after (QemuCommand.__init__ a w) in
  (EXTENSIONS w' = EXTENSIONS w \/
   (parse_uboot_enable a = false /\
    EXTENSIONS w' = <["qemux86-64" := "ext4"]> (EXTENSIONS w))) /\
  (parse_uboot_enable a = true -> EXTENSIONS w' = EXTENSIONS w) /\
  (forall machine, machine <> "qemux86-64" -> extension w' machine = extension w machine).
Proof.
  intros w'.
  assert (keeps (fun w0 => EXTENSIONS w0 = EXTENSIONS w \/
                           (parse_uboot_enable a = false /\
                            EXTENSIONS w0 = <["qemux86-64" := "ext4"]> (EXTENSIONS w)))
                (fun _ => True) (fun _ => True) (QemuCommand.__init__ a)) as Hk.
  { apply init_keeps; try done.
    intros w0 [Hw0|[_ Hw0]] He; right; (split; [done|]); simpl; rewrite Hw0;
      [done|]. by rewrite insert_insert_eq. }
  destruct (Hk w (or_introl eq_refl)) as (Htab & _). fold w' in Htab.
  split; [done|]. split.
  - intros He. destruct Htab as [?|[? _]]; [done|congruence].
  - intros machine Hm. unfold extension.
    destruct Htab as [->|[_ ->]]; [done|]. by rewrite lookup_insert_ne.
Qed.

(** X12: whatever the constructor does, returning or raising, no file
    disappears; without an overlay nothing is copied and the files are as
    before; with an overlay the only files that can appear are
    [<overlay>.u-boot.rom] and [<overlay>.img], these are the only
    destinations of a copy, and a copy is only made when the run is not
    dry. *)
Theorem constructor_file_frame (a : args.t) (w : World) :
  let r := QemuCommand.__init__ a w in
  (files w ⊆ files (after r)) /\
  (truthy (args.overlay a) = false ->
   copies (log r) = [] /\ files (after r) = files w) /\
  (forall ov,
     args.overlay a = Some ov ->
     (files (after r)
      ⊆ {[fs_file w (ov +:+ ".u-boot.rom"); fs_file w (ov +:+ ".img")]} ∪ files w) /\
     (forall src dst,
        (src, dst) ∈ copies (log r) ->
        args.dry_run a = false /\
        (dst = ov +:+ ".u-boot.rom" \/ dst = ov +:+ ".img"))).
Proof.
  intros r. subst r.
  assert (truthy (args.overlay a) = false ->
          copies (log (QemuCommand.__init__ a w)) = [] /\
          files (after (QemuCommand.__init__ a w)) = files w) as Hplain.
  { intros Hov.
    assert (keeps (fun w0 => files w0 = files w) (fun l => copies l = [])
                  (fun _ => True) (QemuCommand.__init__ a)) as Hq.
    { apply init_plain_keeps; try done.
      intros l1 l2 H1 H2. by rewrite copies_app, H1, H2. }
    by destruct (Hq w) as (H1 & H2 & _). }
  assert (forall ov, args.overlay a = Some ov ->
            keeps (fun w0 => fs_file w0 = fs_file w /\ files w ⊆ files w0 /\
                             files w0 ⊆ {[fs_file w (ov +:+ ".u-boot.rom");
                                          fs_file w (ov +:+ ".img")]} ∪ files w)
                  (fun l => forall src dst, (src, dst) ∈ copies l ->
                              args.dry_run a = false /\
                              (dst = ov +:+ ".u-boot.rom" \/ dst = ov +:+ ".img"))
                  (fun _ => True) (QemuCommand.__init__ a)) as Hk.
  { intros ov Ho. apply init_keeps; try done.
    - intros src dst Hin. by apply elem_of_nil in Hin.
    - intros l1 l2 H1 H2 src dst Hin. rewrite copies_app in Hin.
      apply elem_of_app in Hin as [Hin|Hin]; eauto.
    - intros line src dst Hin. by apply elem_of_nil in Hin.
    - intros src dst w0 (Hi & H1 & H2) Hdry Hno Hdst. rewrite Ho in Hdst.
      simpl in Hdst. split.
      + simpl. rewrite Hi. split; [done|]. split.
        * apply union_subseteq_r'. exact H1.
        * apply union_subseteq. split; [|exact H2].
          apply singleton_subseteq_l.
          destruct Hdst as [-> | ->];
            rewrite !elem_of_union, !elem_of_singleton; auto.
      + intros src' dst' Hin. apply list_elem_of_singleton in Hin.
        injection Hin as -> ->. done. }
  assert (files w ⊆ {[fs_file w (fstr (args.overlay a) +:+ ".u-boot.rom");
                      fs_file w (fstr (args.overlay a) +:+ ".img")]} ∪ files w) as Hsub.
  { apply union_subseteq_r. }
  split; [|split; [done|]].
  - destruct (args.overlay a) as [ov|] eqn:Ho.
    + by destruct (Hk ov eq_refl w) as ((_ & H1 & _) & _).
    + destruct Hplain as [_ ->]; done.
  - intros ov Ho. rewrite Ho in Hk, Hsub. simpl in Hsub.
    by destruct (Hk ov eq_refl w) as ((_ & _ & H2) & H3 & _).
Qed.

(** X13: whatever the constructor does, returning or raising, it holds
    no port afterwards that it did not hold before: every port can be
    bound afterwards exactly when it could before. *)
Theorem constructor_releases_ports (a : args.t) (w : World) :
  let w' := after (QemuCommand.__init__ a w) in
  bound_ports w' = bound_ports w /\
  forall port, can_bind w' port = can_bind w port.
Proof.
  intros w'.
  assert (keeps (fun w0 => bound_ports w0 = bound_ports w /\
                           port_free w0 = port_free w)
                (fun _ => True) (fun _ => True) (QemuCommand.__init__ a)) as Hk.
  { by apply init_keeps. }
  destruct (Hk w) as ([H1 H2] & _); [done|].
  fold w' in H1, H2. split; [done|]. intros port. unfold can_bind.
  by rewrite H1, H2.
Qed.

(** X14: what an exception of the constructor tells.  The overlay
    error is only raised with an overlay, the machine errors only about
    the images directory and without a machine option, a missing-artifact
    error only about a path that did not exist when the constructor
    started and only when the run is not dry or an overlay option is
    given, the [TypeError] of asking whether [None] exists only with the
    overlay option [None], the error of a copy only in a run that is not
    dry, with an overlay, for a copy next to the overlay; and the
    [OverflowError] of [bind] is never raised, the two windows of ports
    the constructor asks for being valid port numbers. *)
Theorem constructor_exceptions (a : args.t) (w : World) (e : exn) :
  res (QemuCommand.__init__ a w) = inl e -> raised_for a w e.
Proof.
  assert (keeps (fun w0 => fs_file w0 = fs_file w /\ files w ⊆ files w0)
                (fun _ => True) (raised_for a w) (QemuCommand.__init__ a)) as Hk.
  { apply init_keeps; try done.
    - intros src dst w0 [Hi Hw0] _ _ _. split; [|done]. simpl.
      split; [done|]. by apply union_subseteq_r'.
    - intros w0 p [Hi Hw0] Hp Hwhy.
      assert ((fs_file w p ∉ files w) /\
              (args.dry_run a = false \/ is_Some (args.overlay a))) as Hr; [|done].
      split.
      + intros Hin. apply Hp. rewrite Hi. by apply Hw0.
      + destruct Hwhy as [?|[Ht|(s & -> & _)]]; auto.
        right. destruct (args.overlay a); [by eexists|done]. }
  destruct (Hk w) as (_ & _ & He); [done|]. apply He.
Qed.

Lemma constructor_exceptions_witness :
  raised_for (with_overlay "foo.img" (with_flags true false false plain_args)) bare_world
             (UBootImageMissing "/b/img/qemux86-64/u-boot-qemux86-64.rom").
Proof.
  apply constructor_exceptions. vm_compute. reflexivity.
Defined.

(* ===================================================================== *)
(** ** Further properties of command_line                                 *)
(* ===================================================================== *)

(** X15: a command line starts with the emulator binary and ends with
    the kernel arguments when U-Boot is disabled, otherwise with the
    overlay when there is one, otherwise with the CPU model. *)
Theorem command_line_ends (q : self.t) (w : World) toks :
  res (QemuCommand.command_line q w) = inr toks ->
  head toks = Some (PStr "qemu-system-x86_64") /\
  last toks
  = Some (if negb (self.enable_u_boot q)
          then PStr "root=/dev/vda rw highres=off console=ttyS0 ip=dhcp"
          else if truthy (self.overlay q) then of_option (self.overlay q)
          else if self.kvm q then PStr "host" else PStr "Haswell").
Proof.
  rewrite command_line_eq.
  assert (forall boot sec,
            last (assemble q boot sec)
            = Some (if negb (self.enable_u_boot q)
                    then PStr "root=/dev/vda rw highres=off console=ttyS0 ip=dhcp"
                    else if truthy (self.overlay q) then of_option (self.overlay q)
                    else if self.kvm q then PStr "host" else PStr "Haswell")) as Hlast.
  { intros boot sec. unfold assemble, tail_tokens.
    do 6 (rewrite last_app; cbn [last]).
    destruct (self.enable_u_boot q), (truthy (self.overlay q)), (self.kvm q),
      (self.gui q); reflexivity. }
  destruct (boot_tokens q) as [e|boot]; [done|].
  destruct (self.secondary_network q); intros [= <-]; (split; [done|apply Hlast]).
Qed.

(** X16: with the secondary network device two command lines of the same
    object, in whatever worlds, are the same tokens before and behind the
    [e1000] device token, which follows [-device] and carries an address
    of the shape [ca:fe:XX:XX:XX:XX] each time. *)
Theorem command_line_secondary_mac (q : self.t) (w1 w2 : World) t1 t2 :
  self.secondary_network q = true ->
  res (QemuCommand.command_line q w1) = inr t1 ->
  res (QemuCommand.command_line q w2) = inr t2 ->
  exists before behind mac1 mac2,
    t1 = before ++ PStr ("e1000,netdev=vlan1,mac=" +:+ mac1) :: behind /\
    t2 = before ++ PStr ("e1000,netdev=vlan1,mac=" +:+ mac2) :: behind /\
    has_shape mac_shape mac1 = true /\
    has_shape mac_shape mac2 = true /\
    follows (PStr "-netdev")
            (PStr "socket,id=vlan1,mcast=230.0.0.1:1234,localaddr=127.0.0.1") before /\
    last before = Some (PStr "-device").
Proof.
  intros Hsec. rewrite !command_line_eq, Hsec.
  destruct (boot_tokens q) as [e|boot]; [done|]. intros [= <-] [= <-].
  exists ([PStr "qemu-system-x86_64"] ++ boot ++ drive_tokens q ++ fixed_tokens q
          ++ pcap_tokens q
          ++ [PStr "-netdev";
              PStr "socket,id=vlan1,mcast=230.0.0.1:1234,localaddr=127.0.0.1";
              PStr "-device"]),
    (tail_tokens q), (mac_drawn w1), (mac_drawn w2).
  assert (forall w, has_shape mac_shape (mac_drawn w) = true) as Hshape.
  { intros w. destruct (random_mac_shape w) as (mac & Hrun & Hs & _).
    rewrite random_mac_run in Hrun. injection Hrun as Heq. by rewrite Heq. }
  split; [|split; [|split; [done|split; [done|split]]]].
  - unfold assemble, secondary_tokens. by rewrite <- !app_assoc.
  - unfold assemble, secondary_tokens. by rewrite <- !app_assoc.
  - do 5 apply follows_app_r. apply (follows_here _ _ [] [_]).
  - do 5 (rewrite last_app; cbn [last]). reflexivity.
Qed.

Lemma command_line_secondary_mac_witness :
  let q := {| self.enable_u_boot := true; self.dry_run := false; self.overlay := None;
              self.host_fwd := None; self.kernel := None; self.drive_interface := "ide";
              self.machine := "qemux86-64"; self.bios := Some "u-boot.rom";
              self.image := "core.img"; self.mac_address := "ca:fe:00:00:00:01";
              self.serial_port := 8990; self.ssh_port := 2222; self.mem := "1G";
              self.kvm := false; self.gui := false; self.gdb := false;
              self.pcap := None; self.secondary_network := true |} in
  exists t1 t2 before behind mac1 mac2,
    res (QemuCommand.command_line q tree_world) = inr t1 /\
    res (QemuCommand.command_line q
           (after (QemuCommand.command_line q tree_world))) = inr t2 /\
    t1 = before ++ PStr ("e1000,netdev=vlan1,mac=" +:+ mac1) :: behind /\
    t2 = before ++ PStr ("e1000,netdev=vlan1,mac=" +:+ mac2) :: behind.
Proof.
  intros q.
  assert (exists t1 t2,
            res (QemuCommand.command_line q tree_world) = inr t1 /\
            res (QemuCommand.command_line q
                   (after (QemuCommand.command_line q tree_world))) = inr t2)
    as (t1 & t2 & Ht1 & Ht2).
  { eexists _, _. split; vm_compute; reflexivity. }
  destruct (command_line_secondary_mac q tree_world
              (after (QemuCommand.command_line q tree_world)) t1 t2
              eq_refl Ht1 Ht2)
    as (before & behind & mac1 & mac2 & H1 & H2 & _).
  by exists t1, t2, before, behind, mac1, mac2.
Defined.

(** X17: [command_line] prints nothing and touches neither the files,
    nor the dictionary, nor the sockets; it draws eight digits when it
    returns a command line with the secondary network device and none
    otherwise; the only exception it can raise is the [AttributeError] of
    an object with U-Boot enabled and no [bios]. *)
Theorem command_line_effects (q : self.t) (w : World) :
  let r := QemuCommand.command_line q w in
  log r = [] /\
  files (after r) = files w /\
  EXTENSIONS (after r) = EXTENSIONS w /\
  bound_ports (after r) = bound_ports w /\
  random_pos (after r)
  = (if self.secondary_network q then
       match res r with inr _ => 8 + random_pos w | inl _ => random_pos w end
     else random_pos w)%nat /\
  (forall e, res r = inl e ->
             e = AttributeUnset "bios" /\ self.enable_u_boot q = true /\
             self.bios q = None).
Proof.
  intros r. subst r. rewrite command_line_eq. unfold boot_tokens.
  destruct (self.enable_u_boot q); [destruct (self.bios q)|];
    destruct (self.secondary_network q); simpl; repeat split; try done;
    congruence.
Qed.

Lemma append_assoc_l (s t u : string) : (s +:+ t) +:+ u = s +:+ (t +:+ u).
Proof.
  induction s as [|c s IH]; [done|].
  change (String c ((s +:+ t) +:+ u) = String c (s +:+ (t +:+ u))). by rewrite IH.
Qed.

Lemma command_line_assembled q w toks :
  res (QemuCommand.command_line q w) = inr toks ->
  exists boot sec, toks = assemble q boot sec.
Proof.
  rewrite command_line_eq. destruct (boot_tokens q) as [e|boot]; [done|].
  destruct (self.secondary_network q); intros [= <-]; by eexists _, _.
Qed.

Local Ltac follows_in_list :=
  unfold follows;
  first [ by eexists [], _ | by eexists [_], _ | by eexists [_; _], _
        | by eexists [_; _; _], _ | by eexists [_; _; _; _], _
        | by eexists [_; _; _; _; _], _ | by eexists [_; _; _; _; _; _], _
        | by eexists [_; _; _; _; _; _; _], _
        | by eexists [_; _; _; _; _; _; _; _], _
        | by eexists [_; _; _; _; _; _; _; _; _], _
        | by eexists [_; _; _; _; _; _; _; _; _; _], _ ].

(** X18: the command line of a constructed object carries the options
    of the construction: the memory size (["1G"] when the option is empty
    or absent) after [-m], the serial port, the SSH forward with the GDB
    and the extra forward appended when asked for, the address of the
    object, the capture file when one is given, the KVM flags when the
    option says so or, without the option, when the probe of the
    constructor's world succeeded, and the display flags. *)
Theorem constructed_command_line_options (a : args.t) (w : World) q w' ev :
  QemuCommand.__init__ a w = mkRun (inr q) w' ev ->
  forall w2 toks,
    res (QemuCommand.command_line q w2) = inr toks ->
    follows (PStr "-m") (PStr (if truthy (args.mem a) then fstr (args.mem a) else "1G"))
            toks /\
    follows (PStr "-serial")
            (PStr ("tcp:127.0.0.1:" +:+ fmt_d (self.serial_port q) +:+ ",server,nowait"))
            toks /\
    follows (PStr "-net")
            (PStr ("user,hostfwd=tcp:0.0.0.0:" +:+ fmt_d (self.ssh_port q)
                   +:+ "-:22,restrict=off"
                   +:+ (if args.gdb a then ",hostfwd=tcp:0.0.0.0:2159-:2159" else "")
                   +:+ (if truthy (args.host_forward a)
                        then ",hostfwd=" +:+ fstr (args.host_forward a) else "")))
            toks /\
    follows (PStr "-net") (PStr ("nic,macaddr=" +:+ self.mac_address q)) toks /\
    (truthy (args.pcap a) = true ->
     follows (PStr "-net") (PStr ("dump,file=" +:+ fstr (args.pcap a))) toks) /\
    (if match args.kvm a with Some k => k | None => kvm_ok w end
     then follows (PStr "-enable-kvm") (PStr "-cpu") toks /\
          follows (PStr "-cpu") (PStr "host") toks
     else follows (PStr "-cpu") (PStr "Haswell") toks) /\
    (if args.no_gui a
     then follows (PStr "-nographic") (PStr "-monitor") toks /\
          follows (PStr "-monitor") (PStr "null") toks
     else follows (PStr "-usb") (PStr "-device") toks /\
          follows (PStr "-device") (PStr "usb-tablet") toks /\
          follows (PStr "-vga") (PStr "std") toks).
Proof.
  intros H w2 toks Htoks.
  apply init_inr_rest in H
    as (w3 & ev3 & evs & evh & _ & _ & _ & _ & _ & _ & _ & Hmem & Hkvm & Hgui
        & Hgdb & Hpcap & Hfwd & _).
  apply command_line_assembled in Htoks as (boot & sec & ->).
  unfold assemble.
  assert (netuser q
          = "user,hostfwd=tcp:0.0.0.0:" +:+ fmt_d (self.ssh_port q)
            +:+ "-:22,restrict=off"
            +:+ (if args.gdb a then ",hostfwd=tcp:0.0.0.0:2159-:2159" else "")
            +:+ (if truthy (args.host_forward a)
                 then ",hostfwd=" +:+ fstr (args.host_forward a) else "")) as Hnet.
  { unfold netuser. rewrite Hgdb, Hfwd.
    destruct (args.gdb a), (truthy (args.host_forward a));
      by rewrite ?append_assoc_l, ?append_empty_r. }
  rewrite <- Hnet, <- Hmem, <- Hkvm, <- Hpcap. clear Hnet Hmem Hkvm.
  assert (args.no_gui a = negb (self.gui q)) as -> by (rewrite Hgui; by destruct (args.no_gui a)).
  repeat split.
  - do 3 apply follows_app_r. apply follows_app_l. unfold fixed_tokens. follows_in_list.
  - do 3 apply follows_app_r. apply follows_app_l. unfold fixed_tokens. follows_in_list.
  - do 3 apply follows_app_r. apply follows_app_l. unfold fixed_tokens. follows_in_list.
  - do 3 apply follows_app_r. apply follows_app_l. unfold fixed_tokens. follows_in_list.
  - intros Hp. do 4 apply follows_app_r. apply follows_app_l.
    unfold pcap_tokens. rewrite Hp. follows_in_list.
  - destruct (self.kvm q) eqn:Hk; [split|];
      do 6 apply follows_app_r; unfold tail_tokens; rewrite Hk;
      apply follows_app_r, follows_app_l; follows_in_list.
  - destruct (self.gui q) eqn:Hg; simpl negb; cbv iota; repeat split;
      do 6 apply follows_app_r; unfold tail_tokens; rewrite Hg;
      apply follows_app_l; follows_in_list.
Qed.

Lemma constructed_command_line_options_witness :
  exists toks,
    res (QemuCommand.command_line plain_object tree_world) = inr toks /\
    follows (PStr "-m") (PStr "1G") toks /\
    follows (PStr "-cpu") (PStr "Haswell") toks.
Proof.
  assert (exists toks, res (QemuCommand.command_line plain_object tree_world) = inr toks)
    as [toks Htoks] by (eexists; vm_compute; reflexivity).
  destruct (constructed_command_line_options plain_args tree_world plain_object _ _
              (run_of_res _ _ plain_construction) tree_world toks Htoks)
    as (H1 & _ & _ & _ & _ & H2 & _).
  exists toks. split; [exact Htoks|]. split; [exact H1|exact H2].
Defined.

Lemma existing_image_path_witness :
  let a := with_imagename "img/qemux86-64/core-qemux86-64.ext4" plain_args in
  exists q,
    res (QemuCommand.__init__ a tree_world) = inr q /\
    self.image q
    = fs_realpath tree_world
        (fs_realpath tree_world "img/qemux86-64/core-qemux86-64.ext4").
Proof.
  intros a.
  assert (exists q, res (QemuCommand.__init__ a tree_world) = inr q) as [q Hq].
  { eexists. vm_compute. reflexivity. }
  exists q. split; [exact Hq|].
  apply (existing_image_path a tree_world q _ _ (run_of_res _ _ Hq)).
  - apply (bool_decide_eq_true_1 _). vm_compute. reflexivity.
  - reflexivity.
Defined.

Lemma existing_overlay_reused_witness :
  let a := with_overlay "foo.img" plain_args in
  exists q,
    res (QemuCommand.__init__ a overlay_world) = inr q /\
    copies (log (QemuCommand.__init__ a overlay_world)) = [] /\
    self.image q = "foo.img.img".
Proof.
  intros a.
  assert (exists q, res (QemuCommand.__init__ a overlay_world) = inr q) as [q Hq].
  { eexists. vm_compute. reflexivity. }
  assert (fs_file overlay_world "foo.img" ∈ files overlay_world) as Hin.
  { apply (bool_decide_eq_true_1 _). vm_compute. reflexivity. }
  destruct (existing_overlay_reused a overlay_world "foo.img" q _ _
              (run_of_res _ _ Hq) eq_refl ltac:(discriminate) Hin)
    as (H1 & _ & H2 & _).
  exists q. split; [exact Hq|]. split; [exact H1|exact H2].
Defined.
Lemma constructed_img_command_line_witness :
  let a := with_overlay "foo.img" plain_args in
  exists q,
    res (QemuCommand.__init__ a tree_world) = inr q /\
    QemuCommand.img_command_line q
    = [PStr "qemu-img"; PStr "create"; PStr "-o"; PStr "backing_file=foo.img.img";
       PStr "-f"; PStr "qcow2"; PStr "foo.img"].
Proof.
  intros a.
  assert (exists q, res (QemuCommand.__init__ a tree_world) = inr q) as [q Hq].
  { eexists. vm_compute. reflexivity. }
  exists q. split; [exact Hq|].
  apply (proj1 (constructed_img_command_line a tree_world q _ _ (run_of_res _ _ Hq))
           "foo.img" eq_refl).
  discriminate.
Defined.

Lemma resolve_boot_dry a ov m w b w' ev :
  args.overlay a = Some ov -> ov <> "" ->
  args.efi a = false -> args.dry_run a = true ->
  fs_file w ov ∉ files w -> fs_file w (ov +:+ ".u-boot.rom") ∉ files w ->
  resolve_boot a true m w = mkRun (inr b) w' ev ->
  w' = w /\
  ev = [Stdout ("cp " +:+ uboot_source w a m +:+ " " +:+ ov +:+ ".u-boot.rom")] /\
  (fs_file w (uboot_source w a m) ∈ files w) /\
  b = (Some (ov +:+ ".u-boot.rom"), None).
Proof.
  intros Ho Hne Hefi Hdry Hov Hrom. run_stage. unfold truthy.
  rewrite Ho, Hefi, Hdry. rewrite bool_decide_eq_false_2 by done.
  simpl negb. cbv iota. simpl fstr. run_stage.
  run_cases; by intros [= <- <- <-].
Qed.

Lemma resolve_image_dry a ov m w img w' ev :
  args.overlay a = Some ov -> ov <> "" ->
  args.dry_run a = true ->
  fs_file w ov ∉ files w -> fs_file w (ov +:+ ".img") ∉ files w ->
  resolve_image a m w = mkRun (inr img) w' ev ->
  w' = w /\
  ev = [Stdout ("cp " +:+ base_image w a m +:+ " " +:+ ov +:+ ".img")] /\
  (fs_file w (base_image w a m) ∈ files w) /\
  img = ov +:+ ".img".
Proof.
  intros Ho Hne Hdry Hov Himg. run_stage. unfold truthy.
  rewrite Ho, Hdry. rewrite bool_decide_eq_false_2 by done.
  simpl negb. cbv iota. simpl fstr. run_stage.
  run_cases; by intros [= <- <- <-].
Qed.

(** X19: a dry run for an overlay that does not exist yet, with the
    U-Boot image and the disk image in place, prints the two [cp] lines
    first, copies nothing, and returns an object whose [bios] and [image]
    are the copies next to the overlay, which do not exist. *)
Theorem dry_run_overlay_prints (a : args.t) (w : World) (ov : string) q w' ev :
  args.overlay a = Some ov -> ov <> "" ->
  args.dry_run a = true -> args.efi a = false ->
  fs_file w ov ∉ files w ->
  fs_file w (ov +:+ ".u-boot.rom") ∉ files w ->
  fs_file w (ov +:+ ".img") ∉ files w ->
  QemuCommand.__init__ a w = mkRun (inr q) w' ev ->
  let rom := uboot_source w a (self.machine q) in
  let base := base_image w a (self.machine q) in
  (exists rest,
     ev = [Stdout ("cp " +:+ rom +:+ " " +:+ ov +:+ ".u-boot.rom");
           Stdout ("cp " +:+ base +:+ " " +:+ ov +:+ ".img")] ++ rest /\
     copies rest = []) /\
  (fs_file w rom ∈ files w) /\ (fs_file w base ∈ files w) /\
  files w' = files w /\
  self.bios q = Some (ov +:+ ".u-boot.rom") /\
  self.image q = ov +:+ ".img" /\
  (fs_file w' (ov +:+ ".u-boot.rom") ∉ files w') /\
  (fs_file w' (ov +:+ ".img") ∉ files w').
Proof.
  intros Ho Hne Hdry Hefi Hov Hrom Himg H rom base.
  assert (fs_file w' = fs_file w) as Hi'.
  { pose proof (init_fs_file a w) as Hi. by rewrite H in Hi. }
  rewrite Hi'.
  apply init_inr in H as (w2 & ev2 & w3 & ev3 & ev4 & Hg & _ & Hboot & Himage
                          & -> & Hev4 & _ & _ & _ & _ & Hfiles).
  assert (parse_uboot_enable a = true) as Hpe.
  { unfold truthy in Hg. rewrite Ho, bool_decide_eq_false_2 in Hg by done.
    by destruct (parse_uboot_enable a). }
  rewrite Hpe in Hboot.
  apply (resolve_boot_dry _ ov) in Hboot as (-> & -> & Hsrc & Hb); try done.
  apply (resolve_image_dry _ ov) in Himage as (-> & -> & Hbase & Hi); try done.
  injection Hb as Hb _.
  split; [by exists ev4|]. rewrite Hfiles. done.
Qed.

Lemma dry_run_overlay_prints_witness :
  let a := with_overlay "foo.img" (with_flags true false false plain_args) in
  exists q,
    res (QemuCommand.__init__ a tree_world) = inr q /\
    self.image q = "foo.img.img" /\
    (fs_file (after (QemuCommand.__init__ a tree_world)) "foo.img.img"
     ∉ files (after (QemuCommand.__init__ a tree_world))).
Proof.
  intros a.
  assert (exists q, res (QemuCommand.__init__ a tree_world) = inr q) as [q Hq].
  { eexists. vm_compute. reflexivity. }
  assert (forall p : string, bool_decide (p ∈ files tree_world) = false ->
                             p ∉ files tree_world) as Hno.
  { intros p. apply bool_decide_eq_false_1. }
  destruct (dry_run_overlay_prints a tree_world "foo.img" q _ _ eq_refl
              ltac:(discriminate) eq_refl eq_refl
              ltac:(apply Hno; vm_compute; reflexivity)
              ltac:(apply Hno; vm_compute; reflexivity)
              ltac:(apply Hno; vm_compute; reflexivity)
              (run_of_res _ _ Hq)) as (_ & _ & _ & _ & _ & H1 & _ & H2).
  exists q. split; [exact Hq|]. split; [exact H1|exact H2].
Defined.

(* ===================================================================== *)
(** ** The synthesized image path, spelled out                            *)
(* ===================================================================== *)

Lemma append_cons (c : ascii) (s t : string) : String c s +:+ t = String c (s +:+ t).
Proof. reflexivity. Qed.

Lemma append_empty_inv (s t : string) : s +:+ t = "" -> t = "".
Proof. destruct s; [done|]. rewrite append_cons. discriminate. Qed.

Lemma endswith_sep_append (s t : string) :
  t <> "" -> endswith_sep (s +:+ t) = endswith_sep t.
Proof.
  intros Ht. induction s as [|c s IH]; [done|].
  rewrite append_cons. destruct (s +:+ t) as [|c' r] eqn:Hst.
  - by apply append_empty_inv in Hst.
  - exact IH.
Qed.

Lemma startswith_sep_append (s t : string) :
  s <> "" -> startswith_sep (s +:+ t) = startswith_sep s.
Proof. by destruct s. Qed.

Lemma join_absolute (a b : string) (p : list string) :
  startswith_sep b = true -> join a (p ++ [b]) = b.
Proof.
  intros Hb. unfold join. rewrite fold_left_app. simpl. unfold join_step.
  by rewrite Hb.
Qed.

(** X20: the image name the constructor makes up, character by
    character: an image name that starts with [/] drops the directory and
    the machine; otherwise, for a machine name without slashes at its
    ends, it is [<dir>/<machine>/<file>] for a directory that does not
    end with [/], [<dir><machine>/<file>] for one that does, and the
    relative [<machine>/<file>] for the empty directory. *)
Theorem synthesized_path_spelled_out (w : World) (a : args.t) (m : string) :
  fs_file w (args.imagename a) ∉ files w ->
  let file := args.imagename a +:+ "-" +:+ m +:+ "." +:+ extension w m in
  (startswith_sep (args.imagename a) = true -> base_image w a m = file) /\
  (startswith_sep (args.imagename a) = false ->
   m <> "" -> startswith_sep m = false -> endswith_sep m = false ->
   (args.dir a <> "" -> endswith_sep (args.dir a) = false ->
    base_image w a m = args.dir a +:+ "/" +:+ m +:+ "/" +:+ file) /\
   (endswith_sep (args.dir a) = true ->
    base_image w a m = args.dir a +:+ m +:+ "/" +:+ file) /\
   (args.dir a = "" -> base_image w a m = m +:+ "/" +:+ file)).
Proof.
  intros Hname file. unfold base_image. rewrite bool_decide_eq_false_2 by done.
  fold file.
  assert (startswith_sep file = startswith_sep (args.imagename a)) as Hfile.
  { subst file. destruct (args.imagename a) as [|c s] eqn:Hn; [done|].
    by apply startswith_sep_append. }
  split.
  - intros Habs. apply (join_absolute _ _ [m]). by rewrite Hfile.
  - intros Hrel Hm Hms Hme.
    assert (forall p, p <> "" -> endswith_sep p = false ->
                      join_step p file = p +:+ "/" +:+ file) as Hstep.
    { intros p Hp Hpe. unfold join_step.
      by rewrite Hfile, Hrel, Hpe, bool_decide_eq_false_2. }
    unfold join. simpl. split; [|split].
    + intros Hd Hde. unfold join_step at 2.
      rewrite Hms, Hde, bool_decide_eq_false_2 by done. simpl.
      rewrite Hstep.
      * by rewrite !append_assoc_l.
      * intros Hp. apply append_empty_inv in Hp. discriminate.
      * rewrite endswith_sep_append by done.
        change (endswith_sep (String "/" m) = false).
        destruct m; [done|exact Hme].
    + intros Hde. unfold join_step at 2. rewrite Hms, Hde, orb_true_r.
      rewrite Hstep.
      * by rewrite !append_assoc_l.
      * intros Hp. by apply append_empty_inv in Hp.
      * by rewrite endswith_sep_append.
    + intros ->. unfold join_step at 2. rewrite Hms. simpl.
      by rewrite Hstep.
Qed.

Lemma synthesized_path_spelled_out_witness :
  base_image tree_world plain_args "qemux86-64"
  = "img/qemux86-64/core-qemux86-64.ota-ext4" /\
  base_image tree_world (with_imagename "/srv/core" plain_args) "qemux86-64"
  = "/srv/core-qemux86-64.ota-ext4".
Proof.
  assert (forall p : string, bool_decide (p ∈ files tree_world) = false ->
                             p ∉ files tree_world) as Hno.
  { intros p. apply bool_decide_eq_false_1. }
  split.
  - apply (proj1 (proj2 (synthesized_path_spelled_out tree_world plain_args "qemux86-64"
                           ltac:(apply Hno; vm_compute; reflexivity))
                    eq_refl ltac:(discriminate) eq_refl eq_refl));
      [discriminate|reflexivity].
  - apply (proj1 (synthesized_path_spelled_out tree_world
                    (with_imagename "/srv/core" plain_args) "qemux86-64"
                    ltac:(apply Hno; vm_compute; reflexivity))).
    reflexivity.
Defined.

Lemma constructor_table_frame_witness :
  EXTENSIONS (after (QemuCommand.__init__ plain_args tree_world))
  = EXTENSIONS tree_world.
Proof.
  apply (proj1 (proj2 (constructor_table_frame plain_args tree_world))).
  reflexivity.
Defined.

Lemma constructor_file_frame_witness :
  copies (log (QemuCommand.__init__ plain_args tree_world)) = [] /\
  files (after (QemuCommand.__init__ plain_args tree_world)) = files tree_world.
Proof.
  apply (proj1 (proj2 (constructor_file_frame plain_args tree_world))).
  reflexivity.
Defined.

Lemma command_line_ends_witness :
  exists toks,
    res (QemuCommand.command_line plain_object tree_world) = inr toks /\
    last toks = Some (PStr "Haswell").
Proof.
  assert (exists toks, res (QemuCommand.command_line plain_object tree_world) = inr toks)
    as [toks Htoks] by (eexists; vm_compute; reflexivity).
  exists toks. split; [exact Htoks|].
  exact (proj2 (command_line_ends plain_object tree_world toks Htoks)).
Defined.

Lemma command_line_effects_witness :
  log (QemuCommand.command_line plain_object tree_world) = [] /\
  files (after (QemuCommand.command_line plain_object tree_world)) = files tree_world.
Proof.
  destruct (command_line_effects plain_object tree_world) as (H1 & H2 & _).
  split; [exact H1|exact H2].
Defined.
